(** * Reasoning-trace distillation and validation pipeline

    A shallow embedding of the Python code of
    [tutorials/llm/distill_deepseek_r1/generate_reasoning_data.ipynb]:
    the stream accumulator ([process_streaming_response]), the trace
    requester ([distill_data_from_r1]), the format check ([check_format]),
    the answer check ([calculate_answer]), the validator
    ([filter_reasoning_trace]) and the post-processing cell that maps,
    filters and saves the dataset.

    Python [str] values are [string]s (their characters are [ascii]; the
    checks only ever compare them with the characters of the two tags and
    with the newline), [dict]s with string keys are
    [gmap string value], the integer flags of [re] are [N] with [N.lor]
    and [N.land], and the effects of the code (printing, the request to the
    inference endpoint, the calls into [math_verify], saving to disk,
    raising) are threaded through a small logging error monad. *)

From Stdlib Require Import String Ascii NArith QArith.
From stdpp Require Import base gmap strings list pretty.

Local Open Scope nat_scope.
#[local] Arguments String.append !_ _ / : simpl nomatch.
Set Default Proof Using "Type".

(** ** Python strings *)

Module Str.

(** [s.startswith(p)]. *)
Fixpoint startswith (p s : string) : bool :=
  match p, s with
  | EmptyString, _ => true
  | String a p', String b s' => Ascii.eqb a b && startswith p' s'
  | String _ _, EmptyString => false
  end.

(** The scan behind [s.count(sub)]: occurrences are looked for from left to
    right and, once one is found, the search resumes after its last
    character ([skip] characters are still to be jumped over), so the
    occurrences counted never overlap. *)
Fixpoint count_scan (sub : string) (skip : nat) (s : string) : nat :=
  match skip, s with
  | S k, String _ s' => count_scan sub k s'
  | S _, EmptyString => 0
  | 0, EmptyString => if startswith sub s then 1 else 0
  | 0, String _ s' =>
      if startswith sub s
      then S (count_scan sub (String.length sub - 1) s')
      else count_scan sub 0 s'
  end.

(** [s.count(sub)]. *)
Definition count (s sub : string) : nat := count_scan sub 0 s.

(** Declarative reading of "the token occurs at offset [i] of [t]". *)
Definition occurs_at (tag : string) (i : nat) (t : string) : Prop :=
  ∃ u v, t = u +:+ tag +:+ v ∧ String.length u = i.

(** Declarative reading of "the token occurs exactly once in [t]". *)
Definition occurs_once (tag t : string) : Prop :=
  ∃ i, occurs_at tag i t ∧ ∀ j, occurs_at tag j t → j = i.

(** The number of offsets of [s] at which [tag] occurs (overlaps included). *)
Fixpoint occurrences (tag s : string) : nat :=
  match s with
  | EmptyString => if startswith tag s then 1 else 0
  | String _ s' => (if startswith tag s then 1 else 0) + occurrences tag s'
  end.

(** No character among the first [k] of [s] is [c]. *)
Fixpoint head_free (c : ascii) (k : nat) (s : string) : Prop :=
  match k, s with
  | S k', String x s' => x ≠ c ∧ head_free c k' s'
  | _, _ => True
  end.

End Str.

(** ** The fragment of Python's [re] that the notebook uses *)

Module Re.

(** [re.MULTILINE] and [re.DOTALL] are integer flags joined with [|]. *)
Definition MULTILINE : N := 8.
Definition DOTALL : N := 16.
Definition has_flag (flags flag : N) : bool := negb (N.land flags flag =? 0)%N.

Definition newline : ascii := Ascii.ascii_of_nat 10.

(** A one-character matcher: a literal or [.]. *)
Inductive atom := Chr (c : ascii) | Dot.

(** Pattern items: [^], a one-character matcher, or one under the lazy
    star [*?]. *)
Inductive item := Bol | One (a : atom) | MinStar (a : atom).

Definition regex := list item.

(** Parser for the syntax the pattern is written in: [^], [.], a postfix
    [*?], every other character standing for itself. *)
Fixpoint compile (p : string) : regex :=
  match p with
  | EmptyString => []
  | String c p' =>
      if Ascii.eqb c "^" then Bol :: compile p'
      else
        let a := if Ascii.eqb c "." then Dot else Chr c in
        match p' with
        | String "*" (String "?" p'') => MinStar a :: compile p''
        | _ => One a :: compile p'
        end
  end.

Definition atom_ok (flags : N) (a : atom) (c : ascii) : bool :=
  match a with
  | Chr x => Ascii.eqb x c
  | Dot => has_flag flags DOTALL || negb (Ascii.eqb c newline)
  end.

(** [^] holds at the start of the string and, under [MULTILINE], right
    after a newline. [prev] is the character before the current position. *)
Definition at_bol (flags : N) (prev : option ascii) : bool :=
  match prev with
  | None => true
  | Some c => has_flag flags MULTILINE && Ascii.eqb c newline
  end.

(** Backtracking matcher. [run flags r prev pos s] matches [r] against [s],
    which starts at offset [pos] of the subject, and returns the offset at
    which the first match found ends. A lazy star first tries to stop. *)
Fixpoint run (flags : N) (r : regex) : option ascii → nat → string → option nat :=
  match r with
  | [] => λ _ pos _, Some pos
  | Bol :: r' => λ prev pos s,
      if at_bol flags prev then run flags r' prev pos s else None
  | One a :: r' => λ _ pos s,
      match s with
      | String c s' =>
          if atom_ok flags a c then run flags r' (Some c) (S pos) s' else None
      | EmptyString => None
      end
  | MinStar a :: r' =>
      fix lazy (prev : option ascii) (pos : nat) (s : string) : option nat :=
        match run flags r' prev pos s with
        | Some e => Some e
        | None =>
            match s with
            | String c s' =>
                if atom_ok flags a c then lazy (Some c) (S pos) s' else None
            | EmptyString => None
            end
        end
  end.

(** [re.match(pattern, s, flags)]: a match is attempted at offset zero only;
    the result is the end offset of the match, or [None]. *)
Definition re_match (pattern s : string) (flags : N) : option nat :=
  run flags (compile pattern) None 0 s.

(** Truth value of the result of [re.match]: a match object is true,
    [None] is false. *)
Definition truthy {A} (m : option A) : bool :=
  match m with Some _ => true | None => false end.

(** Declarative semantics: [derives flags r prev w] says that the word [w],
    read right after the character [prev], belongs to the language of
    [r]. *)
Inductive derives (flags : N) : regex → option ascii → string → Prop :=
  | derives_nil prev : derives flags [] prev EmptyString
  | derives_bol r prev w :
      at_bol flags prev = true → derives flags r prev w →
      derives flags (Bol :: r) prev w
  | derives_one a r prev c w :
      atom_ok flags a c = true → derives flags r (Some c) w →
      derives flags (One a :: r) prev (String c w)
  | derives_stop a r prev w :
      derives flags r prev w → derives flags (MinStar a :: r) prev w
  | derives_more a r prev c w :
      atom_ok flags a c = true → derives flags (MinStar a :: r) (Some c) w →
      derives flags (MinStar a :: r) prev (String c w).

(** The pattern that reads the characters of [p] literally. *)
Fixpoint literal (p : string) : regex :=
  match p with
  | EmptyString => []
  | String c p' => One (Chr c) :: literal p'
  end.

(** No [^] in the pattern. *)
Definition bol_free (r : regex) : bool :=
  forallb (λ i, match i with Bol => false | _ => true end) r.

(** [t] matches the pattern from position zero: a prefix of [t] is in its
    language. *)
Definition matches (pattern t : string) (flags : N) : Prop :=
  ∃ w v, t = w +:+ v ∧ derives flags (compile pattern) None w.

End Re.

(** ** The format check *)

(** [check_format]: the anchored pattern must match and each tag must be
    counted exactly once. *)
Definition check_format (reasoning_trace : string) : bool :=
  let pattern := "^<think>.*?</think>" in
  if negb (Re.truthy (Re.re_match pattern reasoning_trace (N.lor Re.DOTALL Re.MULTILINE)))
  then false
  else
    let tags := ["<think>"; "</think>"] in
    (fix for_tag (tags : list string) : bool :=
       match tags with
       | [] => true
       | tag :: tags' =>
           if negb (Str.count reasoning_trace tag =? 1) then false
           else for_tag tags'
       end) tags.

(** The predicate [check_format] is compared with: the trace starts with
    the opening tag and each tag is counted exactly once. *)
Definition check_format_simple (reasoning_trace : string) : bool :=
  Str.startswith "<think>" reasoning_trace
  && (Str.count reasoning_trace "<think>" =? 1)
  && (Str.count reasoning_trace "</think>" =? 1).

(** ** Python values, exceptions, effects *)

(** The values a dataset row holds. *)
Inductive value :=
  | VNone
  | VBool (b : bool)
  | VInt (z : Z)
  | VStr (s : string).

Global Instance value_eq_dec : EqDecision value.
Proof. solve_decision. Defined.

(** [str(v)]. *)
Definition py_str (v : value) : string :=
  match v with
  | VNone => "None"
  | VBool true => "True"
  | VBool false => "False"
  | VInt z => pretty z
  | VStr s => s
  end.

(** Truth value of [v], as [not v] and [if v] take it. *)
Definition py_bool (v : value) : bool :=
  match v with
  | VNone => false
  | VBool b => b
  | VInt z => negb (z =? 0)%Z
  | VStr s => negb (String.eqb s "")
  end.

(** Exceptions. [NonException] stands for the classes under [BaseException]
    that are not under [Exception] ([KeyboardInterrupt], [SystemExit]);
    all the others are subclasses of [Exception]. *)
Inductive exn :=
  | KeyError (key : string)
  | IndexError (msg : string)
  | TypeError (msg : string)
  | ValueError (msg : string)
  | OtherException (msg : string)
  | NonException (msg : string).

Definition is_Exception (e : exn) : bool :=
  match e with NonException _ => false | _ => true end.

(** [str(e)]. *)
Definition exn_str (e : exn) : string :=
  match e with
  | KeyError key => "'" +:+ key +:+ "'"
  | IndexError msg | TypeError msg | ValueError msg
  | OtherException msg | NonException msg => msg
  end.

(** A dataset row, an [example] of the notebook. *)
Abbreviation dict := (gmap string value).

(** One chunk of a streamed completion: [chunk.choices[0].delta.content]. *)
Record chunk_delta := { content : option string }.
Record chunk_choice := { delta : chunk_delta }.
Record chunk := { choices : list chunk_choice }.

(** The streamed completion, as the [for] loop sees it: each step of the
    iteration yields a chunk, ends the iteration, or raises. *)
Inductive completion_stream :=
  | StopIteration
  | Yield (c : chunk) (rest : completion_stream)
  | Raises (e : exn).

(** The keyword arguments of [client.chat.completions.create]. Float
    literals are kept as the decimal fractions the source writes. *)
Record message := { role : string; msg_content : string }.
Record request := {
  model : string;
  messages : list message;
  temperature : Q;
  top_p : Q;
  max_tokens : Z;
  timeout : Z;
  stream : bool
}.

(** The arguments of [math_verify.parse]. *)
Record NormalizationConfig := {
  nits : bool;
  malformed_operators : bool;
  basic_latex : bool;
  equations : bool;
  boxed : bool;
  units : bool
}.
Record LatexExtractionConfig := {
  normalization_config : NormalizationConfig;
  boxed_match_priority : Z;
  try_extract_without_anchor : bool
}.

Section Pipeline.

(** The collaborators of the notebook that live outside the repository:
    the type of parsed expressions and the two functions of [math_verify],
    taken as total functions, and the inference endpoint, which answers a
    request with a stream or raises. *)
Context {expr : Type}.
Variable parse : string → list LatexExtractionConfig → string → list expr.
Variable verify : list expr → value → bool.
Variable client_create : request → exn + completion_stream.

(** What the code does to the world, in the order it does it. *)
Inductive event :=
  | Print (line : string)
  | Create (req : request)
  | Parse (text : string) (extraction_config : list LatexExtractionConfig)
      (extraction_mode : string)
  | Verify (gold : list expr) (target : value)
  | SaveToDisk (rows : list dict) (path : string).

(** Computations: the events performed, then an exception or a result. *)
Definition M (A : Type) : Type := list event * (exn + A).

Definition ret {A} (a : A) : M A := ([], inr a).
Definition raise {A} (e : exn) : M A := ([], inl e).
Definition emit (ev : event) : M unit := ([ev], inr tt).
Definition bind {A B} (m : M A) (k : A → M B) : M B :=
  match m with
  | (log, inl e) => (log, inl e)
  | (log, inr a) => let '(log', r) := k a in (log ++ log', r)
  end.

Local Notation "x <- m ;; k" := (bind m (λ x, k))
  (at level 100, m at next level, right associativity).
Local Notation "m ;;; k" := (bind m (λ _, k))
  (at level 100, right associativity).

Definition events {A} (m : M A) : list event := fst m.
Definition outcome {A} (m : M A) : exn + A := snd m.

(** [d[key]]. *)
Definition getitem (d : dict) (key : string) : M value :=
  match d !! key with
  | Some v => ret v
  | None => raise (KeyError key)
  end.

(** A function of [re] or [math_verify] that takes a [str] rejects
    anything else. *)
Definition as_str (v : value) : M string :=
  match v with
  | VStr s => ret s
  | _ => raise (TypeError "expected string or bytes-like object")
  end.

(** ** [str.format] *)

Definition map_result {A B} (f : A → B) (r : exn + A) : exn + B :=
  match r with inl e => inl e | inr a => inr (f a) end.

(** [template.format] with keyword arguments, for templates made of text,
    the escapes [{{] and [}}], and fields [{name}]. [field] holds the name
    read so far while inside a field. *)
Fixpoint format_scan (template : string) (field : option string)
    (kwargs : dict) : exn + string :=
  match template with
  | EmptyString =>
      match field with
      | None => inr ""
      | Some _ => inl (ValueError "expected '}' before end of string")
      end
  | String c t =>
      match field with
      | None =>
          if Ascii.eqb c "{" then
            match t with
            | String c' t' =>
                if Ascii.eqb c' "{"
                then map_result (String "{") (format_scan t' None kwargs)
                else format_scan t (Some "") kwargs
            | EmptyString => format_scan t (Some "") kwargs
            end
          else if Ascii.eqb c "}" then
            match t with
            | String c' t' =>
                if Ascii.eqb c' "}"
                then map_result (String "}") (format_scan t' None kwargs)
                else inl (ValueError "Single '}' encountered in format string")
            | EmptyString =>
                inl (ValueError "Single '}' encountered in format string")
            end
          else map_result (String c) (format_scan t None kwargs)
      | Some name =>
          if Ascii.eqb c "}" then
            match kwargs !! name with
            | Some v =>
                map_result (String.append (py_str v)) (format_scan t None kwargs)
            | None => inl (KeyError name)
            end
          else format_scan t (Some (name +:+ String c "")) kwargs
      end
  end.

Definition format (template : string) (kwargs : dict) : M string :=
  ([], format_scan template None kwargs).

(** ** Stream accumulator and trace requester *)

Definition PROMPT_TEMPLATE : string :=
  "Please reason step by step, and put your final answer within \boxed{{}}. {problem}".

(** The [for] loop of [process_streaming_response]: the final value of the
    variable [reasoning_trace], and the exception that ended the loop, if
    one did. *)
Fixpoint for_chunk (completion : completion_stream) (reasoning_trace : string)
    : string * option exn :=
  match completion with
  | StopIteration => (reasoning_trace, None)
  | Raises e => (reasoning_trace, Some e)
  | Yield chunk rest =>
      match choices chunk !! 0 with
      | None => (reasoning_trace, Some (IndexError "list index out of range"))
      | Some choice0 =>
          match content (delta choice0) with
          | Some text => for_chunk rest (reasoning_trace +:+ text)
          | None => for_chunk rest reasoning_trace
          end
      end
  end.

(** [process_streaming_response]: [try] the loop; [except Exception]
    prints the error and returns what was accumulated. *)
Definition process_streaming_response (completion : completion_stream) : M string :=
  match for_chunk completion "" with
  | (reasoning_trace, None) => ret reasoning_trace
  | (reasoning_trace, Some e) =>
      if is_Exception e
      then emit (Print ("Error occurred: " +:+ exn_str e)) ;;; ret reasoning_trace
      else raise e
  end.

Definition chat_completions_create (req : request) : M completion_stream :=
  ([Create req], client_create req).

Definition distill_data_from_r1 (example : dict) : M dict :=
  problem <- getitem example "problem" ;;
  prompt <- format PROMPT_TEMPLATE {[ "problem" := problem ]} ;;
  completion <- chat_completions_create
    {| model := "nvdev/deepseek-ai/deepseek-r1";
       messages := [ {| role := "user"; msg_content := prompt |} ];
       temperature := 0.6;
       top_p := 0.7;
       max_tokens := 32768;
       timeout := 10000;
       stream := true |} ;;
  reasoning_trace <- process_streaming_response completion ;;
  ret (<["reasoning_trace" := VStr reasoning_trace]> example).

(** ** Trace validator *)

Definition calculate_answer (reasoning_trace : string) (ground_truth : value) : M bool :=
  let extraction_config :=
    [ {| normalization_config :=
           {| nits := false;
              malformed_operators := false;
              basic_latex := true;
              equations := true;
              boxed := true;
              units := true |};
         boxed_match_priority := 0;
         try_extract_without_anchor := false |} ] in
  emit (Parse reasoning_trace extraction_config "first_match") ;;;
  let answer_parsed := parse reasoning_trace extraction_config "first_match" in
  emit (Verify answer_parsed ground_truth) ;;;
  ret (verify answer_parsed ground_truth).

Definition filter_reasoning_trace (example : dict) : M dict :=
  reasoning_trace <- getitem example "reasoning_trace" ;;
  ground_truth <- getitem example "answer" ;;
  trace <- as_str reasoning_trace ;;
  if negb (check_format trace)
  then ret (<["filtered_reason" := VStr "INVALID_FORMAT"]>
              (<["filtered" := VBool true]> example))
  else
    correct <- calculate_answer trace ground_truth ;;
    if negb correct
    then ret (<["filtered_reason" := VStr "INCORRECT_ANSWER"]>
                (<["filtered" := VBool true]> example))
    else ret (<["filtered_reason" := VStr "VALID"]>
                (<["filtered" := VBool false]> example)).

(** ** The dataset and the post-processing cell *)

(** [dataset.map(function)]: the rows are processed in order; the row a
    call returns replaces the row it was given. *)
Fixpoint dataset_map (function : dict → M dict) (dataset : list dict) : M (list dict) :=
  match dataset with
  | [] => ret []
  | example :: rest =>
      row <- function example ;;
      rows <- dataset_map function rest ;;
      ret (row :: rows)
  end.

(** [dataset.filter(function)]: the rows on which the function is true. *)
Fixpoint dataset_filter (function : dict → M bool) (dataset : list dict) : M (list dict) :=
  match dataset with
  | [] => ret []
  | example :: rest =>
      keep <- function example ;;
      rows <- dataset_filter function rest ;;
      ret (if keep then example :: rows else rows)
  end.

Definition save_to_disk (dataset : list dict) (path : string) : M unit :=
  emit (SaveToDisk dataset path).

(** The cell that distils: [sample_dataset.map(distill_data_from_r1)]. *)
Definition distill_cell (sample_dataset : list dict) : M (list dict) :=
  dataset_map distill_data_from_r1 sample_dataset.

(** The cell that validates, filters and saves; it returns the values of
    [sample_dataset] and [filtered_dataset] once it has run. *)
Definition postprocess_cell (sample_dataset : list dict) : M (list dict * list dict) :=
  sample_dataset <- dataset_map filter_reasoning_trace sample_dataset ;;
  filtered_dataset <-
    dataset_filter (λ x, v <- getitem x "filtered" ;; ret (negb (py_bool v)))
      sample_dataset ;;
  save_to_disk filtered_dataset "filtered_dataset" ;;;
  ret (sample_dataset, filtered_dataset).

End Pipeline.

Arguments event : clear implicits.
Arguments M : clear implicits.

(** ** Vocabulary of the statements *)

(** The text delta a chunk exposes, when the chunk has a first choice. *)
Definition chunk_content (c : chunk) : option (option string) :=
  match choices c !! 0 with
  | Some choice0 => Some (content (delta choice0))
  | None => None
  end.

Definition has_delta (c : chunk) : Prop := is_Some (chunk_content c).

(** A chunk with one choice, whose delta holds [d]. *)
Definition text_chunk (d : option string) : chunk :=
  {| choices := [ {| delta := {| content := d |} |} ] |}.

(** The text fragments of a run of chunks: the content deltas that are not
    [None], in arrival order. *)
Definition fragments (cs : list chunk) : list string :=
  omap (λ c, match chunk_content c with
             | Some (Some text) => Some text
             | _ => None
             end) cs.

Definition concat_text (l : list string) : string := foldr String.append "" l.

(** The stream that yields the chunks [cs] and then goes on as [rest]. *)
Definition stream_of (cs : list chunk) (rest : completion_stream) : completion_stream :=
  foldr Yield rest cs.

(** All the chunks of a stream, and the way it ends. *)
Fixpoint chunks_of (s : completion_stream) : list chunk :=
  match s with
  | Yield c rest => c :: chunks_of rest
  | _ => []
  end.

Fixpoint stream_end (s : completion_stream) : option exn :=
  match s with
  | StopIteration => None
  | Raises e => Some e
  | Yield _ rest => stream_end rest
  end.

(** The chunks the loop is handed before it ends: those up to the end of
    the stream or, if a chunk has no choice at all, up to that chunk. *)
Fixpoint consumed (s : completion_stream) : list chunk :=
  match s with
  | Yield c rest =>
      c :: match chunk_content c with Some _ => consumed rest | None => [] end
  | _ => []
  end.

(** The requests sent to the endpoint, in order. *)
Definition requests {expr} (log : list (event expr)) : list request :=
  omap (λ ev, match ev with Create req => Some req | _ => None end) log.

(** The datasets written to disk, in order. *)
Definition saved {expr} (log : list (event expr)) : list (list dict * string) :=
  omap (λ ev, match ev with SaveToDisk rows path => Some (rows, path) | _ => None end) log.

(** The calls into [math_verify]. *)
Definition is_answer_check {expr} (ev : event expr) : bool :=
  match ev with Parse _ _ _ | Verify _ _ => true | _ => false end.

(** The request [distill_data_from_r1] is to send for a problem. *)
Definition r1_request (problem : value) : request :=
  {| model := "nvdev/deepseek-ai/deepseek-r1";
     messages :=
       [ {| role := "user";
            msg_content :=
              "Please reason step by step, and put your final answer within \boxed{}. "
              +:+ py_str problem |} ];
     temperature := 0.6;
     top_p := 0.7;
     max_tokens := 32768;
     timeout := 10000;
     stream := true |}.

(** The extraction configuration [calculate_answer] hands to [parse]. *)
Definition answer_extraction_config : list LatexExtractionConfig :=
  [ {| normalization_config :=
         {| nits := false; malformed_operators := false; basic_latex := true;
            equations := true; boxed := true; units := true |};
       boxed_match_priority := 0;
       try_extract_without_anchor := false |} ].

(** A row with a verdict attached. *)
Definition with_verdict (filtered : bool) (reason : string) (example : dict) : dict :=
  <["filtered_reason" := VStr reason]> (<["filtered" := VBool filtered]> example).

Definition reason_codes : list string := ["VALID"; "INVALID_FORMAT"; "INCORRECT_ANSWER"].

(** ** Sample collaborators and rows *)

Module Sample.

(** A stand-in for [math_verify]: the extraction is the whole text, and it
    is accepted when the text is a thinking section followed by the boxed
    target. *)
Definition parse (text : string) (_ : list LatexExtractionConfig) (_ : string)
    : list string := [text].

Definition verify (gold : list string) (target : value) : bool :=
  match gold with
  | [g] => String.eqb g ("<think>adding</think>\boxed{" +:+ py_str target +:+ "}")
  | _ => false
  end.

(** An endpoint that streams its answer in three chunks, the second one
    without text. *)
Definition answer_chunks : list chunk :=
  [ text_chunk (Some "<think>adding"); text_chunk None;
    text_chunk (Some "</think>\boxed{4}") ].

Definition client_create (_ : request) : exn + completion_stream :=
  inr (stream_of answer_chunks StopIteration).

(** A transport failure, as the notebook's output shows it. *)
Definition peer_closed : exn :=
  OtherException "peer closed connection without sending complete message body (incomplete chunked read)".

Definition problem_row : dict :=
  {[ "problem" := VStr "2+2=?"; "answer" := VStr "4" ]}.

Definition valid_row : dict :=
  <["reasoning_trace" := VStr "<think>adding</think>\boxed{4}"]> problem_row.

Definition untagged_row : dict :=
  <["reasoning_trace" := VStr "\boxed{4}"]> problem_row.

Definition wrong_row : dict :=
  <["reasoning_trace" := VStr "<think>adding</think>\boxed{5}"]> problem_row.

End Sample.

(** ** The test cell *)




(** ** More vocabulary *)

(** The token occurs nowhere in [t]. *)
Definition absent (tag t : string) : Prop := ∀ i, ¬ Str.occurs_at tag i t.

(** The character [c] is not in [p]. *)
Fixpoint lacks (c : ascii) (p : string) : Prop :=
  match p with
  | EmptyString => True
  | String x p' => x ≠ c ∧ lacks c p'
  end.

(** The row has a trace, which is a string, and a ground truth. *)
Definition has_trace_and_answer (ex : dict) : bool :=
  match ex !! "reasoning_trace", ex !! "answer" with
  | Some (VStr _), Some _ => true
  | _, _ => false
  end.

(** The trace of the row is a string that passes the format check. *)
Definition format_ok (ex : dict) : bool :=
  match ex !! "reasoning_trace" with
  | Some (VStr t) => check_format t
  | _ => false
  end.

Section Verdicts.
Context {expr : Type}.
Variable parse : string → list LatexExtractionConfig → string → list expr.
Variable verify : list expr → value → bool.

(** The trace of the row passes the format check and its extraction is
    accepted against the ground truth. *)
Definition passes_checks (ex : dict) : bool :=
  match ex !! "reasoning_trace", ex !! "answer" with
  | Some (VStr t), Some gt =>
      check_format t && verify (parse t answer_extraction_config "first_match") gt
  | _, _ => false
  end.

(** The calls into [math_verify] that the row is worth: two when its trace
    passes the format check, none otherwise. *)
Definition answer_checks (ex : dict) : list (event expr) :=
  match ex !! "reasoning_trace", ex !! "answer" with
  | Some (VStr t), Some gt =>
      if check_format t
      then [ Parse t answer_extraction_config "first_match";
             Verify (parse t answer_extraction_config "first_match") gt ]
      else []
  | _, _ => []
  end.

(** The row with the verdict it deserves. *)
Definition validated (ex : dict) : dict :=
  match ex !! "reasoning_trace", ex !! "answer" with
  | Some (VStr t), Some gt =>
      if check_format t
      then
        if verify (parse t answer_extraction_config "first_match") gt
        then with_verdict false "VALID" ex
        else with_verdict true "INCORRECT_ANSWER" ex
      else with_verdict true "INVALID_FORMAT" ex
  | _, _ => ex
  end.

End Verdicts.

(** ** More sample rows *)

Module MoreSamples.

(** A row that was never distilled, and a row whose trace is not text. *)
Definition no_answer_row : dict :=
  {[ "problem" := VStr "2+2=?"; "reasoning_trace" := VStr "no tags" ]}.

Definition none_trace_row : dict :=
  {[ "problem" := VStr "2+2=?"; "answer" := VStr "4"; "reasoning_trace" := VNone ]}.

Definition no_problem_row : dict := {[ "answer" := VStr "4" ]}.

(** An endpoint that refuses the request. *)
Definition refusing_client (_ : request) : exn + completion_stream :=
  inl (OtherException "Connection error.").

(** An endpoint whose stream breaks before the thinking section closes. *)
Definition cut_chunks : list chunk :=
  [ text_chunk (Some "<think>"); text_chunk None; text_chunk (Some "adding") ].

Definition cut_client (_ : request) : exn + completion_stream :=
  inr (stream_of cut_chunks (Raises Sample.peer_closed)).

(** A chunk without any choice. *)
Definition empty_chunk : chunk := {| choices := [] |}.

End MoreSamples.

(** * Facts about strings *)

Module StrFacts.
Import Str.

Lemma append_nil_r (s : string) : s +:+ "" = s.
Proof. induction s as [|c s IH]; simpl; [done | by rewrite IH]. Qed.

Lemma append_assoc (a b c : string) : (a +:+ b) +:+ c = a +:+ b +:+ c.
Proof. induction a as [|x a IH]; simpl; [done | by rewrite IH]. Qed.

Lemma length_append (a b : string) :
  String.length (a +:+ b) = String.length a + String.length b.
Proof. induction a as [|x a IH]; simpl; [done | by rewrite IH]. Qed.

Lemma startswith_append (p v : string) : startswith p (p +:+ v) = true.
Proof.
  induction p as [|a p IH]; simpl; [done |].
  by rewrite Ascii.eqb_refl, IH.
Qed.

Lemma startswith_split (p s : string) :
  startswith p s = true → ∃ v, s = p +:+ v.
Proof.
  revert s. induction p as [|a p IH]; intros s H.
  - by exists s.
  - destruct s as [|b s]; simpl in H; [done |].
    apply andb_prop in H as [Hab Hps].
    apply Ascii.eqb_eq in Hab as ->.
    destruct (IH _ Hps) as [v ->]. by exists v.
Qed.

Lemma startswith_iff (p s : string) :
  startswith p s = true ↔ ∃ v, s = p +:+ v.
Proof.
  split; [apply startswith_split |].
  intros [v ->]. apply startswith_append.
Qed.

Lemma occurs_at_0 (tag t : string) :
  occurs_at tag 0 t ↔ startswith tag t = true.
Proof.
  rewrite startswith_iff. split.
  - intros (u & v & -> & Hu). destruct u; [|done]. by exists v.
  - intros [v ->]. by exists "", v.
Qed.

Lemma occurs_at_S (tag : string) (i : nat) (c : ascii) (t : string) :
  occurs_at tag (S i) (String c t) ↔ occurs_at tag i t.
Proof.
  split.
  - intros (u & v & Ht & Hu). destruct u as [|x u]; [done |].
    simpl in Ht, Hu. injection Ht as -> ->. injection Hu as Hu.
    by exists u, v.
  - intros (u & v & -> & Hu). exists (String c u), v. simpl. by rewrite Hu.
Qed.

Lemma occurs_at_S_empty (tag : string) (i : nat) : ¬ occurs_at tag (S i) "".
Proof. intros (u & v & Ht & Hu). by destruct u. Qed.

Lemma occurs_at_append (tag u v : string) :
  occurs_at tag (String.length u) (u +:+ tag +:+ v).
Proof. by exists u, v. Qed.

(** [occurrences] is zero exactly when the token occurs nowhere. *)
Lemma occurrences_0 (tag s : string) :
  occurrences tag s = 0 ↔ ∀ i, ¬ occurs_at tag i s.
Proof.
  induction s as [|c s IH]; simpl.
  - destruct (startswith tag "") eqn:E.
    + split; [done |]. intros H. destruct (H 0). by apply occurs_at_0.
    + split; [|done]. intros _ [|i] H.
      * apply occurs_at_0 in H. congruence.
      * by apply occurs_at_S_empty in H.
  - destruct (startswith tag (String c s)) eqn:E; simpl.
    + split; [done |]. intros H. destruct (H 0). by apply occurs_at_0.
    + rewrite IH. split.
      * intros H [|i] Hi.
        -- apply occurs_at_0 in Hi. congruence.
        -- apply occurs_at_S in Hi. by apply (H i).
      * intros H i Hi. apply (H (S i)). by apply occurs_at_S.
Qed.

(** [occurrences] is one exactly when the token occurs at one offset only. *)
Lemma occurrences_1 (tag s : string) :
  occurrences tag s = 1 ↔ occurs_once tag s.
Proof.
  unfold occurs_once. induction s as [|c s IH]; simpl.
  - destruct (startswith tag "") eqn:E.
    + split; [|done]. intros _. exists 0. split; [by apply occurs_at_0 |].
      intros [|j] Hj; [done |]. by apply occurs_at_S_empty in Hj.
    + split; [done |]. intros ([|i] & Hi & _).
      * apply occurs_at_0 in Hi. congruence.
      * by apply occurs_at_S_empty in Hi.
  - destruct (startswith tag (String c s)) eqn:E; simpl.
    + split.
      * intros H. assert (H0 : occurrences tag s = 0) by lia.
        exists 0. split; [by apply occurs_at_0 |].
        intros [|j] Hj; [done |]. apply occurs_at_S in Hj.
        by apply (proj1 (occurrences_0 tag s) H0) in Hj.
      * intros (i & Hi & Huniq). f_equal. apply occurrences_0.
        intros j Hj. apply occurs_at_0 in E.
        assert (0 = i) by by apply Huniq.
        assert (S j = i) by (apply Huniq; by apply occurs_at_S).
        lia.
    + rewrite IH. split.
      * intros (i & Hi & Huniq). exists (S i). split; [by apply occurs_at_S |].
        intros [|j] Hj.
        -- apply occurs_at_0 in Hj. congruence.
        -- apply occurs_at_S in Hj. f_equal. by apply Huniq.
      * intros ([|i] & Hi & Huniq).
        -- apply occurs_at_0 in Hi. congruence.
        -- exists i. split; [by apply occurs_at_S in Hi |].
           intros j Hj. assert (S j = S i) by (apply Huniq; by apply occurs_at_S).
           lia.
Qed.

Lemma occurrences_ge_1 (tag s : string) :
  1 ≤ occurrences tag s ↔ ∃ i, occurs_at tag i s.
Proof.
  split.
  - induction s as [|c s IH]; simpl.
    + destruct (startswith tag "") eqn:E; [|lia].
      intros _. exists 0. by apply occurs_at_0.
    + destruct (startswith tag (String c s)) eqn:E; simpl.
      * intros _. exists 0. by apply occurs_at_0.
      * intros H. destruct (IH H) as [i Hi]. exists (S i). by apply occurs_at_S.
  - intros [i Hi]. destruct (occurrences tag s) eqn:E; [|lia].
    by apply (proj1 (occurrences_0 tag s) E) in Hi.
Qed.

(** For a token whose first character does not come back later in it, the
    non-overlapping scan of [count] finds every occurrence. *)
Lemma count_scan_occurrences (c : ascii) (tl : string) :
  (∀ v, head_free c (String.length tl) (tl +:+ v)) →
  ∀ s k, head_free c k s →
    count_scan (String c tl) k s = occurrences (String c tl) s.
Proof.
  intros Hfree. induction s as [|x s IH]; intros k Hk.
  - by destruct k.
  - destruct k as [|k].
    + cbn [count_scan occurrences].
      destruct (startswith (String c tl) (String x s)) eqn:E.
      * apply startswith_split in E as [v E]. simpl in E. injection E as -> ->.
        cbn [String.length]. rewrite Nat.sub_succ, Nat.sub_0_r.
        by rewrite IH.
      * by rewrite IH.
    + destruct Hk as [Hx Hk]. cbn [count_scan occurrences startswith].
      rewrite IH by done.
      destruct (Ascii.eqb c x) eqn:E; [|done].
      apply Ascii.eqb_eq in E. congruence.
Qed.

Lemma count_occurrences (c : ascii) (tl s : string) :
  (∀ v, head_free c (String.length tl) (tl +:+ v)) →
  count s (String c tl) = occurrences (String c tl) s.
Proof. intros H. apply count_scan_occurrences; [done | by destruct s]. Qed.

Lemma count_think_open (s : string) :
  count s "<think>" = occurrences "<think>" s.
Proof. apply count_occurrences. intros v. cbn. by repeat split. Qed.

Lemma count_think_close (s : string) :
  count s "</think>" = occurrences "</think>" s.
Proof. apply count_occurrences. intros v. cbn. by repeat split. Qed.

End StrFacts.

(** * Facts about the matcher *)

Module ReFacts.
Import Str StrFacts Re.

Lemma run_minstar (flags : N) (a : atom) (r : regex) prev pos s :
  run flags (MinStar a :: r) prev pos s =
  match run flags r prev pos s with
  | Some e => Some e
  | None =>
      match s with
      | String c s' =>
          if atom_ok flags a c
          then run flags (MinStar a :: r) (Some c) (S pos) s'
          else None
      | EmptyString => None
      end
  end.
Proof. by destruct s. Qed.

(** A successful run has read a word of the language, and returns the
    offset right after it. *)
Lemma run_sound (flags : N) (r : regex) :
  ∀ prev pos s e, run flags r prev pos s = Some e →
    ∃ w v, s = w +:+ v ∧ derives flags r prev w ∧ e = pos + String.length w.
Proof.
  induction r as [|[|a|a] r IH]; intros prev pos s e H.
  - injection H as <-. exists "", s. repeat split; [constructor | simpl; lia].
  - simpl in H. destruct (at_bol flags prev) eqn:E; [|done].
    destruct (IH _ _ _ _ H) as (w & v & -> & Hw & ->).
    exists w, v. repeat split. by constructor.
  - simpl in H. destruct s as [|c s]; [done |].
    destruct (atom_ok flags a c) eqn:E; [|done].
    destruct (IH _ _ _ _ H) as (w & v & -> & Hw & ->).
    exists (String c w), v. repeat split; [by constructor | simpl; lia].
  - revert prev pos e H. induction s as [|c s IHs]; intros prev pos e;
      rewrite run_minstar.
    + destruct (run flags r prev pos "") eqn:E; [|done]. intros [= <-].
      destruct (IH _ _ _ _ E) as (w & v & Hs & Hw & ->).
      exists w, v. repeat split; [done | by constructor].
    + destruct (run flags r prev pos (String c s)) eqn:E.
      * intros [= <-].
        destruct (IH _ _ _ _ E) as (w & v & Hs & Hw & ->).
        exists w, v. repeat split; [done | by constructor].
      * destruct (atom_ok flags a c) eqn:Ea; [|done]. intros H.
        destruct (IHs _ _ _ H) as (w & v & -> & Hw & ->).
        exists (String c w), v. repeat split; [by apply derives_more | simpl; lia].
Qed.

(** Every word of the language at the head of the subject makes the run
    succeed. *)
Lemma run_complete (flags : N) (r : regex) prev w :
  derives flags r prev w → ∀ pos v, ∃ e, run flags r prev pos (w +:+ v) = Some e.
Proof.
  induction 1 as [prev|r prev w Hb _ IH|a r prev c w Ha _ IH
                  |a r prev w _ IH|a r prev c w Ha _ IH]; intros pos v.
  - simpl. eauto.
  - simpl. rewrite Hb. apply IH.
  - simpl. rewrite Ha. apply IH.
  - rewrite run_minstar. destruct (IH pos v) as [e ->]. eauto.
  - rewrite run_minstar. simpl.
    destruct (run flags r prev pos (String c (w +:+ v))); [eauto |].
    rewrite Ha. apply IH.
Qed.

(** [re.match] is true exactly on the subjects that match the pattern. *)
Lemma re_match_matches (pattern t : string) (flags : N) :
  truthy (re_match pattern t flags) = true ↔ matches pattern t flags.
Proof.
  unfold re_match, matches. split.
  - destruct (run flags (compile pattern) None 0 t) as [e|] eqn:E; [|done].
    intros _. destruct (run_sound _ _ _ _ _ _ E) as (w & v & -> & Hw & _).
    by exists w, v.
  - intros (w & v & -> & Hw).
    by destruct (run_complete _ _ _ _ Hw 0 v) as [e ->].
Qed.

(** The end offset [re.match] returns is the end of a matched prefix. *)
Lemma re_match_end (pattern t : string) (flags : N) (e : nat) :
  re_match pattern t flags = Some e →
  ∃ w v, t = w +:+ v ∧ derives flags (compile pattern) None w
         ∧ e = String.length w.
Proof. intros H. by apply run_sound in H. Qed.

Lemma run_literal (flags : N) (p : string) prev pos s :
  truthy (run flags (literal p) prev pos s) = startswith p s.
Proof.
  revert prev pos s. induction p as [|a p IH]; intros prev pos s; [done |].
  destruct s as [|c s]; simpl; [done |].
  destruct (Ascii.eqb a c); simpl; [apply IH | done].
Qed.

Lemma run_literal_app_fail (flags : N) (p : string) (r : regex) prev pos s :
  startswith p s = false → run flags (literal p ++ r) prev pos s = None.
Proof.
  revert prev pos s. induction p as [|a p IH]; intros prev pos s; [done |].
  destruct s as [|c s]; simpl; [done |].
  destruct (Ascii.eqb a c); simpl; [apply IH | done].
Qed.

(** A lazy [.*?] under [DOTALL] followed by a literal succeeds exactly when
    the literal occurs somewhere in what is left of the subject. *)
Lemma run_lazy_dot_literal (flags : N) (p : string) prev pos s :
  has_flag flags DOTALL = true →
  truthy (run flags (MinStar Dot :: literal p) prev pos s)
  = (1 <=? occurrences p s).
Proof.
  intros Hd. revert prev pos. induction s as [|c s IH]; intros prev pos;
    rewrite run_minstar; cbn [occurrences];
    pose proof (run_literal flags p prev pos) as Hl.
  - specialize (Hl ""). destruct (run flags (literal p) prev pos "");
      simpl in Hl; by rewrite <- Hl.
  - specialize (Hl (String c s)).
    destruct (run flags (literal p) prev pos (String c s));
      simpl in Hl; rewrite <- Hl; [done |].
    cbn [atom_ok]. rewrite Hd. cbn [orb]. by rewrite IH.
Qed.

(** Neither the flags other than [DOTALL] nor the preceding character
    matter to a pattern without [^]. *)
Lemma run_bol_free (f1 f2 : N) (r : regex) :
  has_flag f1 DOTALL = has_flag f2 DOTALL → bol_free r = true →
  ∀ p1 p2 pos s, run f1 r p1 pos s = run f2 r p2 pos s.
Proof.
  intros Hd. assert (Ha : ∀ a c, atom_ok f1 a c = atom_ok f2 a c).
  { intros [x|] c; simpl; [done | by rewrite Hd]. }
  induction r as [|[|a|a] r IH]; intros Hr p1 p2 pos s; [done | done | |].
  - simpl. destruct s as [|c s]; [done |]. rewrite Ha.
    destruct (atom_ok f2 a c); [by apply IH | done].
  - revert p1 p2 pos. induction s as [|c s IHs]; intros p1 p2 pos;
      rewrite (run_minstar f1 a r p1), (run_minstar f2 a r p2), (IH Hr p1 p2);
      [done |].
    destruct (run f2 r p2 pos (String c s)); [done |].
    rewrite Ha. destruct (atom_ok f2 a c); [apply IHs | done].
Qed.

Lemma has_flag_lor_multiline (flags : N) :
  has_flag (N.lor flags MULTILINE) DOTALL = has_flag flags DOTALL.
Proof.
  unfold has_flag. rewrite N.land_lor_distr_l.
  change (N.land MULTILINE DOTALL) with 0%N. by rewrite N.lor_0_r.
Qed.

End ReFacts.

(** * The format check *)

Module FormatFacts.
Import Str StrFacts Re ReFacts.

#[local] Abbreviation think_pattern := "^<think>.*?</think>" (only parsing).
#[local] Abbreviation code_flags := (N.lor DOTALL MULTILINE) (only parsing).

Lemma check_format_unfold (t : string) :
  check_format t
  = truthy (re_match think_pattern t code_flags)
    && (count t "<think>" =? 1) && (count t "</think>" =? 1).
Proof.
  unfold check_format. destruct (truthy _); simpl; [|done].
  destruct (count t "<think>" =? 1); simpl; [|done].
  by destruct (count t "</think>" =? 1).
Qed.

Lemma compile_think :
  compile think_pattern
  = Bol :: literal "<think>" ++ MinStar Dot :: literal "</think>".
Proof. reflexivity. Qed.

Lemma re_match_think_prefix (flags : N) (r : string) :
  re_match think_pattern ("<think>" +:+ r) flags
  = run flags (MinStar Dot :: literal "</think>") (Some ">"%char) 7 r.
Proof. reflexivity. Qed.

Lemma re_match_think_no_prefix (flags : N) (t : string) :
  startswith "<think>" t = false → re_match think_pattern t flags = None.
Proof.
  intros H. unfold re_match. rewrite compile_think.
  cbn [run at_bol]. by apply run_literal_app_fail.
Qed.

Lemma occurrences_close_after_open (r : string) :
  occurrences "</think>" ("<think>" +:+ r) = occurrences "</think>" r.
Proof. reflexivity. Qed.

(** The regular expression, spelled out: an opening tag at offset zero and
    a closing tag somewhere after it. *)
Lemma matches_think_shape (flags : N) (t : string) :
  has_flag flags DOTALL = true →
  matches think_pattern t flags
  ↔ ∃ u v, t = "<think>" +:+ u +:+ "</think>" +:+ v.
Proof.
  intros Hd. rewrite <- re_match_matches. split.
  - intros H. destruct (startswith "<think>" t) eqn:E.
    + apply startswith_split in E as [r ->].
      rewrite re_match_think_prefix, run_lazy_dot_literal in H by done.
      apply Nat.leb_le, occurrences_ge_1 in H as (i & u & v & -> & _).
      by exists u, v.
    + by rewrite re_match_think_no_prefix in H.
  - intros (u & v & ->).
    rewrite re_match_think_prefix, run_lazy_dot_literal by done.
    apply Nat.leb_le, occurrences_ge_1.
    exists (String.length u). apply occurs_at_append.
Qed.

Lemma check_format_iff (t : string) :
  check_format t = true
  ↔ matches think_pattern t code_flags
    ∧ occurs_once "<think>" t ∧ occurs_once "</think>" t.
Proof.
  rewrite check_format_unfold, !andb_true_iff, re_match_matches, !Nat.eqb_eq.
  rewrite count_think_open, count_think_close, !occurrences_1. tauto.
Qed.

(** A trace that passes starts with the opening tag. *)
Lemma check_format_startswith (t : string) :
  check_format t = true → startswith "<think>" t = true.
Proof.
  intros H. apply check_format_iff in H as (Hm & _).
  apply matches_think_shape in Hm as (u & v & ->); [|done].
  apply startswith_append.
Qed.

Lemma check_format_stray_prefix (c : ascii) (pre rest : string) :
  check_format (String c pre +:+ "<think>" +:+ rest) = false.
Proof.
  destruct (check_format _) eqn:E; [|done]. exfalso.
  pose proof (check_format_startswith _ E) as H0.
  apply check_format_iff in E as (_ & (i & _ & Huniq) & _).
  apply occurs_at_0 in H0.
  pose proof (occurs_at_append "<think>" (String c pre) rest) as H1.
  apply Huniq in H0, H1. simpl in H1. lia.
Qed.

Lemma check_format_two_opening (a b c : string) :
  check_format (a +:+ "<think>" +:+ b +:+ "<think>" +:+ c) = false.
Proof.
  destruct (check_format _) eqn:E; [|done]. exfalso.
  apply check_format_iff in E as (_ & (i & _ & Huniq) & _).
  pose proof (occurs_at_append "<think>" a (b +:+ "<think>" +:+ c)) as H1.
  pose proof (occurs_at_append "<think>" (a +:+ "<think>" +:+ b) c) as H2.
  rewrite !append_assoc in H2. rewrite !length_append in H2.
  apply Huniq in H1, H2. simpl in H2. lia.
Qed.

(** C1. [check_format] returns true exactly on the traces that match the
    anchored pattern [^<think>.*?</think>] from position zero, with [.]
    matching newlines, and in which each of the tokens [<think>] and
    [</think>] occurs exactly once. The trace
    [<think>reasoning</think>final answer] passes; a trace with any
    character (whitespace or other text) before [<think>] fails; a trace
    with two [<think>] tokens fails. *)
Theorem check_format_spec :
  (∀ t, check_format t = true
        ↔ matches think_pattern t code_flags
          ∧ occurs_once "<think>" t ∧ occurs_once "</think>" t)
  ∧ (∀ t, matches think_pattern t code_flags
          ↔ ∃ u v, t = "<think>" +:+ u +:+ "</think>" +:+ v)
  ∧ check_format "<think>reasoning</think>final answer" = true
  ∧ (∀ c pre rest, check_format (String c pre +:+ "<think>" +:+ rest) = false)
  ∧ check_format " <think>reasoning</think>final answer" = false
  ∧ check_format "reasoning</think>final answer" = false
  ∧ (∀ a b c, check_format (a +:+ "<think>" +:+ b +:+ "<think>" +:+ c) = false).
Proof.
  split; [apply check_format_iff |].
  split; [intros t; by apply matches_think_shape |].
  split; [reflexivity |].
  split; [apply check_format_stray_prefix |].
  split; [reflexivity |].
  split; [reflexivity |].
  apply check_format_two_opening.
Qed.

(** The lazy star stops at the first closing tag, and [.] runs over
    newlines. *)
Example re_match_lazy :
  re_match think_pattern "<think>a</think>b</think>" code_flags = Some 16.
Proof. reflexivity. Qed.

Example re_match_newline :
  re_match think_pattern
    ("<think>" +:+ String newline ("a" +:+ String newline "</think>")) code_flags
  = Some 18.
Proof. reflexivity. Qed.

Example re_match_newline_no_dotall :
  re_match think_pattern
    ("<think>" +:+ String newline ("a" +:+ String newline "</think>")) MULTILINE
  = None.
Proof. reflexivity. Qed.

Example count_non_overlapping : count "aaaa" "aa" = 2 ∧ occurrences "aa" "aaaa" = 3.
Proof. by split. Qed.

Lemma re_match_think_multiline (flags : N) (t : string) :
  re_match think_pattern t (N.lor flags MULTILINE)
  = re_match think_pattern t flags.
Proof.
  unfold re_match. rewrite compile_think. cbn [run at_bol].
  apply run_bol_free; [apply has_flag_lor_multiline | reflexivity].
Qed.

Lemma check_format_simple_eq (t : string) :
  check_format t = check_format_simple t.
Proof.
  rewrite check_format_unfold. unfold check_format_simple.
  destruct (startswith "<think>" t) eqn:E.
  - apply startswith_split in E as [r ->].
    rewrite re_match_think_prefix, run_lazy_dot_literal by done.
    rewrite (count_think_close ("<think>" +:+ r)), occurrences_close_after_open.
    destruct (occurrences "</think>" r) as [|[|n]]; simpl;
      by rewrite ?andb_false_r.
  - by rewrite re_match_think_no_prefix.
Qed.

(** C10. [check_format] is the same predicate as: the trace starts with
    [<think>], and [<think>] and [</think>] are each counted exactly once.
    The regular expression adds nothing to the two counts: [MULTILINE] does
    not change the result of the match, the closing tags of a trace that
    starts with [<think>] are those found after that prefix, and on such a
    trace the match succeeds as soon as one closing tag is counted. *)
Theorem check_format_refines_simple :
  (∀ t, check_format t = check_format_simple t)
  ∧ (∀ t flags, re_match think_pattern t (N.lor flags MULTILINE)
                = re_match think_pattern t flags)
  ∧ (∀ r, count ("<think>" +:+ r) "</think>" = count r "</think>")
  ∧ (∀ r, truthy (re_match think_pattern ("<think>" +:+ r) code_flags)
          = (1 <=? count ("<think>" +:+ r) "</think>")).
Proof.
  split; [apply check_format_simple_eq |].
  split; [intros t flags; apply re_match_think_multiline |].
  split.
  - intros r. by rewrite !count_think_close.
  - intros r. rewrite re_match_think_prefix, run_lazy_dot_literal by done.
    by rewrite count_think_close.
Qed.

End FormatFacts.

(** * The stream accumulator *)

Section AccumulatorFacts.
Context {expr : Type}.
Import StrFacts.

#[local] Abbreviation process_streaming_response :=
  (process_streaming_response (expr := expr)) (only parsing).

Lemma concat_text_app (l1 l2 : list string) :
  concat_text (l1 ++ l2) = concat_text l1 +:+ concat_text l2.
Proof.
  induction l1 as [|x l1 IH]; simpl; [done |].
  by rewrite IH, append_assoc.
Qed.

Lemma fragments_app (cs1 cs2 : list chunk) :
  fragments (cs1 ++ cs2) = fragments cs1 ++ fragments cs2.
Proof. apply omap_app. Qed.

Lemma chunk_content_text (d : option string) :
  chunk_content (text_chunk d) = Some d.
Proof. reflexivity. Qed.

(** How the loop ends: with the stream, or on the first chunk that has no
    choice, where [choices[0]] raises. *)
Lemma for_chunk_end (s : completion_stream) (acc : string) :
  (for_chunk s acc).2
  = (fix ending (s : completion_stream) : option exn :=
       match s with
       | StopIteration => None
       | Raises e => Some e
       | Yield c rest =>
           match chunk_content c with
           | Some _ => ending rest
           | None => Some (IndexError "list index out of range")
           end
       end) s.
Proof.
  revert acc. induction s as [|c rest IH|e]; intros acc; simpl; [done | | done].
  unfold chunk_content. destruct (choices c !! 0) as [choice0|]; [|done].
  destruct (content (delta choice0)); apply IH.
Qed.

(** The variable [reasoning_trace], when the loop ends, holds its initial
    value followed by the fragments of the chunks consumed, in order. *)
Lemma for_chunk_consumed (s : completion_stream) (acc : string) :
  (for_chunk s acc).1 = acc +:+ concat_text (fragments (consumed s)).
Proof.
  revert acc. induction s as [|c rest IH|e]; intros acc; simpl;
    [by rewrite append_nil_r | | by rewrite append_nil_r].
  unfold fragments, chunk_content. simpl.
  destruct (choices c !! 0) as [choice0|]; simpl; [|by rewrite append_nil_r].
  destruct (content (delta choice0)) as [text|]; simpl; rewrite IH; [|done].
  by rewrite append_assoc.
Qed.

Lemma consumed_has_delta (s : completion_stream) :
  Forall has_delta (chunks_of s) → consumed s = chunks_of s.
Proof.
  induction s as [|c rest IH|e]; simpl; [done | | done].
  intros H. apply Forall_cons in H as [[d Hd] H]. by rewrite Hd, IH.
Qed.

Lemma for_chunk_end_has_delta (s : completion_stream) (acc : string) :
  Forall has_delta (chunks_of s) → (for_chunk s acc).2 = stream_end s.
Proof.
  rewrite for_chunk_end. induction s as [|c rest IH|e]; simpl; [done | | done].
  intros H. apply Forall_cons in H as [[d Hd] H]. rewrite Hd. by apply IH.
Qed.

Lemma chunks_of_stream_of (cs : list chunk) (rest : completion_stream) :
  chunks_of (stream_of cs rest) = cs ++ chunks_of rest.
Proof. induction cs as [|c cs IH]; simpl; [done | by rewrite IH]. Qed.

Lemma stream_end_stream_of (cs : list chunk) (rest : completion_stream) :
  stream_end (stream_of cs rest) = stream_end rest.
Proof. by induction cs. Qed.

(** The loop, on a run of chunks that all expose a delta. *)
Lemma for_chunk_stream_of (cs : list chunk) (rest : completion_stream) (acc : string) :
  Forall has_delta cs →
  for_chunk (stream_of cs rest) acc
  = for_chunk rest (acc +:+ concat_text (fragments cs)).
Proof.
  revert acc. induction cs as [|c cs IH]; intros acc H; simpl.
  - by rewrite append_nil_r.
  - apply Forall_cons in H as [[d Hd] H]. unfold fragments. simpl.
    unfold chunk_content in *.
    destruct (choices c !! 0) as [choice0|]; [|done].
    injection Hd as <-.
    destruct (content (delta choice0)) as [text|]; simpl; rewrite IH by done;
      [by rewrite append_assoc | done].
Qed.

(** What the accumulator returns, in full. *)
Lemma process_streaming_response_eq (s : completion_stream) :
  process_streaming_response s
  = let text := concat_text (fragments (consumed s)) in
    match (for_chunk s "").2 with
    | None => ([], inr text)
    | Some e =>
        if is_Exception e
        then ([Print ("Error occurred: " +:+ exn_str e)], inr text)
        else ([], inl e)
    end.
Proof.
  unfold process_streaming_response.
  pose proof (for_chunk_consumed s "") as H.
  destruct (for_chunk s "") as [text [e|]]; simpl in *; subst text; [|done].
  by destruct (is_Exception e).
Qed.

(** No exception of class [Exception] leaves the accumulator. *)
Lemma process_streaming_response_raises (s : completion_stream) (e : exn) :
  outcome (process_streaming_response s) = inl e → is_Exception e = false.
Proof.
  rewrite process_streaming_response_eq. simpl.
  destruct (for_chunk s "").2 as [e'|]; [|done].
  destruct (is_Exception e') eqn:E; [done |]. by intros [= <-].
Qed.

End AccumulatorFacts.

(** * The effect monad *)

Section MonadFacts.
Context {expr : Type}.

#[local] Abbreviation M := (M expr) (only parsing).

Lemma bind_inr {A B} (m : M A) (k : A → M B) (log : list (event expr)) (a : A) :
  m = (log, inr a) → bind m k = (log ++ (k a).1, (k a).2).
Proof. intros ->. simpl. by destruct (k a). Qed.

Lemma bind_inl {A B} (m : M A) (k : A → M B) (log : list (event expr)) (e : exn) :
  m = (log, inl e) → bind m k = (log, inl e).
Proof. by intros ->. Qed.

Lemma bind_ret {A B} (a : A) (k : A → M B) : bind (ret a) k = k a.
Proof. unfold bind, ret. by destruct (k a). Qed.

(** A computation that returns went through each of its steps. *)
Lemma bind_returns {A B} (m : M A) (k : A → M B) (log : list (event expr)) (b : B) :
  bind m k = (log, inr b) →
  ∃ l1 a l2, m = (l1, inr a) ∧ k a = (l2, inr b) ∧ log = l1 ++ l2.
Proof.
  destruct m as [l1 [e|a]]; simpl; [done |].
  destruct (k a) as [l2 r] eqn:E. intros [= <- ->]. by exists l1, a, l2.
Qed.

Lemma outcome_bind_returns {A B} (m : M A) (k : A → M B) (b : B) :
  outcome (bind m k) = inr b →
  ∃ a, outcome m = inr a ∧ outcome (k a) = inr b.
Proof.
  destruct m as [l1 [e|a]]; simpl; [done |].
  destruct (k a) as [l2 r] eqn:E. simpl. intros ->. exists a.
  by rewrite E.
Qed.

Lemma events_bind {A B} (m : M A) (k : A → M B) (P : event expr → Prop) :
  Forall P (events m) → (∀ a, Forall P (events (k a))) →
  Forall P (events (bind m k)).
Proof.
  destruct m as [l1 [e|a]]; simpl; [done |]. intros H1 H2.
  specialize (H2 a). destruct (k a) as [l2 r]. simpl in *.
  by apply Forall_app.
Qed.

Lemma dataset_map_returns (f : dict → M dict) (ds out : list dict)
    (log : list (event expr)) :
  dataset_map f ds = (log, inr out) →
  Forall2 (λ x y, outcome (f x) = inr y) ds out.
Proof.
  revert out log. induction ds as [|x ds IH]; intros out log; simpl.
  - intros [= <- <-]. constructor.
  - intros H. apply bind_returns in H as (l1 & y & l2 & Hx & H & _).
    apply bind_returns in H as (l3 & ys & l4 & Hds & H & _).
    injection H as _ <-. constructor; [by rewrite Hx | by eapply IH].
Qed.

Lemma dataset_map_total (f : dict → M dict) (ds : list dict) :
  Forall (λ x, ∃ y, outcome (f x) = inr y) ds →
  ∃ log out, dataset_map f ds = (log, inr out).
Proof.
  induction 1 as [|x ds [y Hy] _ (log & out & IH)]; simpl.
  - by exists [], [].
  - destruct (f x) as [l1 r] eqn:E. simpl in Hy. subst r.
    rewrite (bind_inr _ _ l1 y) by done.
    rewrite (bind_inr _ _ log out) by done. simpl. eauto.
Qed.

Lemma dataset_map_events (P : event expr → Prop) (f : dict → M dict) (ds : list dict) :
  (∀ x, Forall P (events (f x))) → Forall P (events (dataset_map f ds)).
Proof.
  intros Hf. induction ds as [|x ds IH]; simpl; [constructor |].
  apply events_bind; [done |]. intros y.
  apply events_bind; [done |]. intros ys. constructor.
Qed.

(** On rows whose [filtered] field is a boolean, the filtering step keeps
    the rows where it is false, and does nothing else. *)
Lemma dataset_filter_not_filtered (ds : list dict) :
  Forall (λ x : dict, ∃ b, x !! "filtered" = Some (VBool b)) ds →
  dataset_filter (expr := expr)
    (λ x, bind (getitem x "filtered") (λ v, ret (negb (py_bool v)))) ds
  = ([], inr (filter (λ x : dict, x !! "filtered" = Some (VBool false)) ds)).
Proof.
  induction 1 as [|x ds [b Hb] _ IH]; simpl; [done |].
  unfold getitem at 1. rewrite Hb, bind_ret, bind_ret, IH. simpl.
  rewrite filter_cons. destruct b; simpl.
  - rewrite decide_False; [done |]. by rewrite Hb.
  - rewrite decide_True; [done |]. by rewrite Hb.
Qed.

End MonadFacts.

(** * The trace validator *)

Lemma with_verdict_filtered (b : bool) (r : string) (ex : dict) :
  with_verdict b r ex !! "filtered" = Some (VBool b).
Proof.
  unfold with_verdict. rewrite lookup_insert_ne by done. apply lookup_insert_eq.
Qed.

Lemma with_verdict_reason (b : bool) (r : string) (ex : dict) :
  with_verdict b r ex !! "filtered_reason" = Some (VStr r).
Proof. apply lookup_insert_eq. Qed.

Lemma with_verdict_other (b : bool) (r : string) (ex : dict) (k : string) :
  k ≠ "filtered" → k ≠ "filtered_reason" → with_verdict b r ex !! k = ex !! k.
Proof. intros H1 H2. unfold with_verdict. by rewrite !lookup_insert_ne. Qed.

Lemma with_verdict_dom (b : bool) (r : string) (ex : dict) :
  dom (with_verdict b r ex) = dom ex ∪ {["filtered"; "filtered_reason"]}.
Proof.
  unfold with_verdict. rewrite !dom_insert_L, (comm_L (∪) (dom ex)).
  by rewrite (assoc_L (∪)), (comm_L (∪) {["filtered"]}).
Qed.

Section ValidatorFacts.
Context {expr : Type}.
Variable parse : string → list LatexExtractionConfig → string → list expr.
Variable verify : list expr → value → bool.

#[local] Abbreviation calculate_answer := (calculate_answer parse verify) (only parsing).
#[local] Abbreviation filter_reasoning_trace :=
  (filter_reasoning_trace parse verify) (only parsing).
#[local] Abbreviation postprocess_cell := (postprocess_cell parse verify) (only parsing).

(** The answer check: one call to [parse], with boxed answers tried first,
    one call to [verify] on what it returned. *)
Lemma calculate_answer_eq (t : string) (gt : value) :
  calculate_answer t gt
  = let parsed := parse t answer_extraction_config "first_match" in
    ([Parse t answer_extraction_config "first_match"; Verify parsed gt],
     inr (verify parsed gt)).
Proof. reflexivity. Qed.

(** The validator on a row that has a trace and a ground truth. *)
Lemma filter_reasoning_trace_eq (ex : dict) (t : string) (gt : value) :
  ex !! "reasoning_trace" = Some (VStr t) →
  ex !! "answer" = Some gt →
  filter_reasoning_trace ex
  = if check_format t
    then
      let parsed := parse t answer_extraction_config "first_match" in
      ([Parse t answer_extraction_config "first_match"; Verify parsed gt],
       inr (if verify parsed gt
            then with_verdict false "VALID" ex
            else with_verdict true "INCORRECT_ANSWER" ex))
    else ([], inr (with_verdict true "INVALID_FORMAT" ex)).
Proof.
  intros Ht Hgt. unfold filter_reasoning_trace, getitem.
  rewrite Ht, Hgt, !bind_ret. unfold as_str. rewrite bind_ret.
  destruct (check_format t); cbn [negb]; [|done].
  rewrite calculate_answer_eq. cbn [bind]. unfold ret.
  by destruct (verify _ gt).
Qed.

(** The validator returns only on rows that have a trace, which is a
    string, and a ground truth. *)
Lemma filter_reasoning_trace_returns (ex out : dict) :
  outcome (filter_reasoning_trace ex) = inr out →
  ∃ t gt, ex !! "reasoning_trace" = Some (VStr t) ∧ ex !! "answer" = Some gt.
Proof.
  unfold filter_reasoning_trace, getitem.
  destruct (ex !! "reasoning_trace") as [v|]; [|done].
  destruct (ex !! "answer") as [gt|]; [|done].
  destruct v as [| | |t]; try done. intros _. by exists t, gt.
Qed.

(** What the validator raises, if it raises. *)
Lemma filter_reasoning_trace_raises (ex : dict) (e : exn) :
  outcome (filter_reasoning_trace ex) = inl e →
  ex !! "reasoning_trace" = None ∨ ex !! "answer" = None
  ∨ ∃ v, ex !! "reasoning_trace" = Some v ∧ ∀ t, v ≠ VStr t.
Proof.
  destruct (ex !! "reasoning_trace") as [v|] eqn:Ht; [|by left].
  destruct (ex !! "answer") as [gt|] eqn:Hgt; [|by right; left].
  destruct v as [| | |t];
    try (intros _; right; right; eexists; split; [done | by intros]).
  rewrite (filter_reasoning_trace_eq ex t gt) by done.
  by destruct (check_format t).
Qed.

Lemma filter_reasoning_trace_cases (ex out : dict) :
  outcome (filter_reasoning_trace ex) = inr out →
  out = with_verdict false "VALID" ex
  ∨ out = with_verdict true "INVALID_FORMAT" ex
  ∨ out = with_verdict true "INCORRECT_ANSWER" ex.
Proof.
  intros H. destruct (filter_reasoning_trace_returns _ _ H) as (t & gt & Ht & Hgt).
  rewrite (filter_reasoning_trace_eq ex t gt) in H by done.
  destruct (check_format t); simpl in H.
  - destruct (verify _ gt); injection H as <-; auto.
  - injection H as <-; auto.
Qed.

Lemma filter_reasoning_trace_events (ex : dict) :
  Forall (λ ev, is_answer_check ev = true) (events (filter_reasoning_trace ex)).
Proof.
  destruct (ex !! "reasoning_trace") as [v|] eqn:Ht;
    [|by unfold filter_reasoning_trace, getitem; rewrite Ht].
  destruct (ex !! "answer") as [gt|] eqn:Hgt;
    [|by unfold filter_reasoning_trace, getitem; rewrite Ht, Hgt].
  destruct v as [| | |t];
    try by unfold filter_reasoning_trace, getitem; rewrite Ht, Hgt.
  rewrite (filter_reasoning_trace_eq ex t gt) by done.
  destruct (check_format t); simpl; by repeat constructor.
Qed.

Lemma filter_reasoning_trace_fields (ex out : dict) :
  outcome (filter_reasoning_trace ex) = inr out →
  ∃ b r, out !! "filtered" = Some (VBool b)
         ∧ out !! "filtered_reason" = Some (VStr r)
         ∧ r ∈ reason_codes
         ∧ (b = false ↔ r = "VALID").
Proof.
  intros H. apply filter_reasoning_trace_cases in H as [-> | [-> | ->]];
    rewrite with_verdict_filtered, with_verdict_reason;
    do 2 eexists; (split; [done |]); (split; [done |]);
    (split; [unfold reason_codes; set_solver | done]).
Qed.

Lemma filter_reasoning_trace_total (ex : dict) (t : string) (gt : value) :
  ex !! "reasoning_trace" = Some (VStr t) →
  ex !! "answer" = Some gt →
  ∃ out, outcome (filter_reasoning_trace ex) = inr out.
Proof.
  intros Ht Hgt. rewrite (filter_reasoning_trace_eq ex t gt) by done.
  destruct (check_format t); simpl; eauto.
Qed.

(** C2. On every record the validator produces, [filtered] is false exactly
    when [filtered_reason] is VALID; [filtered] is a boolean and
    [filtered_reason] is one of VALID, INVALID_FORMAT, INCORRECT_ANSWER. *)
Theorem filter_reasoning_trace_verdict (ex out : dict) :
  outcome (filter_reasoning_trace ex) = inr out →
  (out !! "filtered" = Some (VBool false)
   ↔ out !! "filtered_reason" = Some (VStr "VALID"))
  ∧ (∃ b, out !! "filtered" = Some (VBool b))
  ∧ (∃ r, out !! "filtered_reason" = Some (VStr r) ∧ r ∈ reason_codes).
Proof.
  intros H.
  apply filter_reasoning_trace_fields in H as (b & r & Hb & Hr & Hin & Hbr).
  rewrite Hb, Hr. split; [|split; [by exists b | by exists r]].
  split.
  - intros [= ->]. by rewrite (proj1 Hbr eq_refl).
  - intros [= ->]. by rewrite (proj2 Hbr eq_refl).
Qed.

(** C3. On an example that has a trace and a ground truth, the validator
    runs the format check and then the answer check. When the format check
    fails the verdict is filtered, INVALID_FORMAT, and neither [parse] nor
    [verify] is called. When it passes and [verify] says no, the verdict is
    filtered, INCORRECT_ANSWER, which includes the case where [parse]
    extracted nothing and [verify] rejects the empty extraction. When both
    pass the verdict is not filtered, VALID. In every case the validator
    returns a record: it does not raise. *)
Theorem filter_reasoning_trace_sequence (ex : dict) (t : string) (gt : value) :
  ex !! "reasoning_trace" = Some (VStr t) →
  ex !! "answer" = Some gt →
  let parsed := parse t answer_extraction_config "first_match" in
  (check_format t = false →
     filter_reasoning_trace ex = ([], inr (with_verdict true "INVALID_FORMAT" ex)))
  ∧ (check_format t = true → verify parsed gt = false →
     filter_reasoning_trace ex
     = ([Parse t answer_extraction_config "first_match"; Verify parsed gt],
        inr (with_verdict true "INCORRECT_ANSWER" ex)))
  ∧ (check_format t = true → parsed = [] → verify [] gt = false →
     outcome (filter_reasoning_trace ex)
     = inr (with_verdict true "INCORRECT_ANSWER" ex))
  ∧ (check_format t = true → verify parsed gt = true →
     filter_reasoning_trace ex
     = ([Parse t answer_extraction_config "first_match"; Verify parsed gt],
        inr (with_verdict false "VALID" ex)))
  ∧ (∃ out, outcome (filter_reasoning_trace ex) = inr out).
Proof.
  intros Ht Hgt parsed. rewrite (filter_reasoning_trace_eq ex t gt) by done.
  subst parsed. cbv zeta. split; [|split; [|split; [|split]]].
  - by intros ->.
  - by intros -> ->.
  - intros -> Hp Hv. simpl. by rewrite Hp, Hv.
  - by intros -> ->.
  - destruct (check_format t); simpl; eauto.
Qed.

End ValidatorFacts.

(** * The trace requester *)

Section RequesterFacts.
Context {expr : Type}.
Variable client_create : request → exn + completion_stream.
Import StrFacts.

#[local] Abbreviation distill_data_from_r1 :=
  (distill_data_from_r1 (expr := expr) client_create) (only parsing).
#[local] Abbreviation process_streaming_response :=
  (process_streaming_response (expr := expr)) (only parsing).

(** The template with the problem substituted: the escaped braces become
    the braces of [\boxed{}] and the field becomes [str(problem)]. *)
Lemma format_prompt (problem : value) :
  format_scan PROMPT_TEMPLATE None {[ "problem" := problem ]}
  = inr ("Please reason step by step, and put your final answer within \boxed{}. "
         +:+ py_str problem).
Proof.
  transitivity
    (inr (A := exn)
       ("Please reason step by step, and put your final answer within \boxed{}. "
        +:+ py_str problem +:+ "")).
  - vm_compute. reflexivity.
  - by rewrite append_nil_r.
Qed.

Lemma process_streaming_response_requests (s : completion_stream) :
  requests (events (process_streaming_response s)) = [].
Proof.
  rewrite process_streaming_response_eq. simpl.
  destruct (for_chunk s "").2 as [e|]; [|done]. by destruct (is_Exception e).
Qed.

(** The requester on a row that has a problem. *)
Lemma distill_data_from_r1_eq (ex : dict) (problem : value) :
  ex !! "problem" = Some problem →
  distill_data_from_r1 ex
  = bind (chat_completions_create client_create (r1_request problem))
      (λ completion,
         bind (process_streaming_response completion)
           (λ reasoning_trace,
              ret (<["reasoning_trace" := VStr reasoning_trace]> ex))).
Proof.
  intros Hp. unfold distill_data_from_r1, getitem. rewrite Hp, bind_ret.
  unfold format. rewrite format_prompt.
  rewrite (bind_inr _ _ [] _ eq_refl). symmetry. apply surjective_pairing.
Qed.

(** C6. For a record with a problem, the requester sends exactly one
    completion request: a single message, of role user (no system message),
    whose content is the prompt template with the problem substituted, with
    temperature 0.6, top_p 0.7, max_tokens 32768 and streaming on. *)
Theorem distill_data_from_r1_request (ex : dict) (problem : value) :
  ex !! "problem" = Some problem →
  ∃ content,
    format_scan PROMPT_TEMPLATE None {[ "problem" := problem ]} = inr content
    ∧ content
      = "Please reason step by step, and put your final answer within \boxed{}. "
        +:+ py_str problem
    ∧ requests (events (distill_data_from_r1 ex))
      = [ {| model := "nvdev/deepseek-ai/deepseek-r1";
             messages := [ {| role := "user"; msg_content := content |} ];
             temperature := 0.6;
             top_p := 0.7;
             max_tokens := 32768;
             timeout := 10000;
             stream := true |} ].
Proof.
  intros Hp. eexists. split; [apply format_prompt |]. split; [done |].
  rewrite (distill_data_from_r1_eq ex problem) by done.
  unfold chat_completions_create.
  destruct (client_create (r1_request problem)) as [e|completion] eqn:E.
  - by rewrite (bind_inl _ _ _ e eq_refl).
  - rewrite (bind_inr _ _ _ completion eq_refl). cbn [events fst].
    pose proof (process_streaming_response_requests completion) as Hr.
    destruct (process_streaming_response completion) as [log [e|text]];
      simpl in *; unfold requests in *; rewrite ?app_nil_r;
      by rewrite Hr.
Qed.

(** What the requester returns is its input with the trace added. *)
Lemma distill_data_from_r1_returns (ex out : dict) :
  outcome (distill_data_from_r1 ex) = inr out →
  ∃ t, out = <["reasoning_trace" := VStr t]> ex.
Proof.
  intros H. unfold distill_data_from_r1 in H.
  apply outcome_bind_returns in H as (problem & _ & H).
  apply outcome_bind_returns in H as (prompt & _ & H).
  apply outcome_bind_returns in H as (completion & _ & H).
  apply outcome_bind_returns in H as (t & _ & H).
  injection H as <-. by exists t.
Qed.

End RequesterFacts.

(** * The accumulator under failure, and the pipeline as a whole *)

Section PipelineFacts.
Context {expr : Type}.
Variable parse : string → list LatexExtractionConfig → string → list expr.
Variable verify : list expr → value → bool.
Variable client_create : request → exn + completion_stream.

#[local] Abbreviation process_streaming_response :=
  (process_streaming_response (expr := expr)) (only parsing).
#[local] Abbreviation distill_data_from_r1 :=
  (distill_data_from_r1 (expr := expr) client_create) (only parsing).
#[local] Abbreviation distill_cell :=
  (distill_cell (expr := expr) client_create) (only parsing).
#[local] Abbreviation filter_reasoning_trace :=
  (filter_reasoning_trace parse verify) (only parsing).
#[local] Abbreviation postprocess_cell := (postprocess_cell parse verify) (only parsing).

Lemma for_chunk_skip (cs1 cs2 : list chunk) (c : chunk)
    (rest : completion_stream) (acc : string) :
  chunk_content c = Some None →
  for_chunk (stream_of (cs1 ++ c :: cs2) rest) acc
  = for_chunk (stream_of (cs1 ++ cs2) rest) acc.
Proof.
  intros Hc. revert acc. induction cs1 as [|c1 cs1 IH]; intros acc; simpl.
  - unfold chunk_content in Hc.
    destruct (choices c !! 0) as [choice0|]; [|done].
    by destruct (content (delta choice0)).
  - destruct (choices c1 !! 0) as [choice0|]; [|done].
    destruct (content (delta choice0)); apply IH.
Qed.

Lemma process_streaming_response_truncated_eq (cs : list chunk) (e : exn) :
  Forall has_delta cs → is_Exception e = true →
  process_streaming_response (stream_of cs (Raises e))
  = ([Print ("Error occurred: " +:+ exn_str e)],
     inr (concat_text (fragments cs))).
Proof.
  intros Hcs He. unfold process_streaming_response.
  rewrite for_chunk_stream_of by done. simpl. by rewrite He.
Qed.

Lemma process_streaming_response_complete_eq (cs : list chunk) :
  Forall has_delta cs →
  process_streaming_response (stream_of cs StopIteration)
  = ([], inr (concat_text (fragments cs))).
Proof.
  intros Hcs. unfold process_streaming_response.
  by rewrite for_chunk_stream_of by done.
Qed.

(** C4. When the iteration of the stream raises an exception of class
    [Exception] after the chunks [cs], the accumulator does not raise: it
    prints the error and returns the concatenation, in arrival order, of
    the text fragments of [cs], and nothing else. No exception of that
    class ever leaves the accumulator. When the stream delivers
    [<think>foo] and then fails, the trace returned is [<think>foo], which
    the format check rejects: the validator's verdict on it is
    INVALID_FORMAT. *)
Theorem process_streaming_response_truncated (cs : list chunk) (e : exn) :
  Forall has_delta cs → is_Exception e = true →
  process_streaming_response (stream_of cs (Raises e))
  = ([Print ("Error occurred: " +:+ exn_str e)],
     inr (concat_text (fragments cs)))
  ∧ (∀ s e', outcome (process_streaming_response s) = inl e' →
             is_Exception e' = false)
  ∧ outcome (process_streaming_response
               (Yield (text_chunk (Some "<think>foo")) (Raises e)))
    = inr "<think>foo"
  ∧ check_format "<think>foo" = false
  ∧ (∀ ex gt, ex !! "answer" = Some gt →
       filter_reasoning_trace (<["reasoning_trace" := VStr "<think>foo"]> ex)
       = ([], inr (with_verdict true "INVALID_FORMAT"
                     (<["reasoning_trace" := VStr "<think>foo"]> ex)))).
Proof.
  intros Hcs He. split; [by apply process_streaming_response_truncated_eq |].
  split; [apply process_streaming_response_raises |].
  split.
  - unfold process_streaming_response. simpl. by rewrite He.
  - split; [reflexivity |]. intros ex gt Hgt.
    rewrite (filter_reasoning_trace_eq parse verify _ "<think>foo" gt); [done | |].
    + apply lookup_insert_eq.
    + by rewrite lookup_insert_ne.
Qed.

(** C9. A chunk whose content delta is [None] is skipped: the stream with
    the chunk and the stream without it give the same result. On every
    stream whose chunks expose a delta, the variable [reasoning_trace]
    ends as the concatenation of the deltas that are not [None], in
    arrival order, and this is what is returned when the stream ends or
    fails with an [Exception]. *)
Theorem process_streaming_response_skips_none :
  (∀ cs1 cs2 c rest, chunk_content c = Some None →
     process_streaming_response (stream_of (cs1 ++ c :: cs2) rest)
     = process_streaming_response (stream_of (cs1 ++ cs2) rest))
  ∧ (∀ s, Forall has_delta (chunks_of s) →
       (for_chunk s "").1 = concat_text (fragments (chunks_of s)))
  ∧ (∀ cs, Forall has_delta cs →
       process_streaming_response (stream_of cs StopIteration)
       = ([], inr (concat_text (fragments cs))))
  ∧ (∀ cs e, Forall has_delta cs → is_Exception e = true →
       outcome (process_streaming_response (stream_of cs (Raises e)))
       = inr (concat_text (fragments cs)))
  ∧ fragments [text_chunk (Some "a"); text_chunk None; text_chunk (Some "b")]
    = ["a"; "b"].
Proof.
  split.
  { intros cs1 cs2 c rest Hc. unfold process_streaming_response.
    by rewrite for_chunk_skip. }
  split.
  { intros s Hs. by rewrite for_chunk_consumed, consumed_has_delta. }
  split; [apply process_streaming_response_complete_eq |].
  split; [|reflexivity].
  intros cs e Hcs He. by rewrite process_streaming_response_truncated_eq.
Qed.

Lemma outcome_dataset_map (f : dict → M expr dict) (ds out : list dict) :
  outcome (dataset_map f ds) = inr out →
  Forall2 (λ x y, outcome (f x) = inr y) ds out.
Proof.
  destruct (dataset_map f ds) as [log r] eqn:E. simpl. intros ->.
  by eapply dataset_map_returns.
Qed.

Lemma frame_included (ex out : dict) (key : string) :
  (∀ k, k ≠ key → out !! k = ex !! k) → ex !! key = None → ex ⊆ out.
Proof.
  intros H Hkey. apply map_subseteq_spec. intros k v Hk.
  rewrite H; [done |]. intros ->. congruence.
Qed.

Lemma distill_data_from_r1_frame (ex out : dict) :
  outcome (distill_data_from_r1 ex) = inr out →
  (∀ k, k ≠ "reasoning_trace" → out !! k = ex !! k)
  ∧ dom out = dom ex ∪ {["reasoning_trace"]}.
Proof.
  intros H. apply distill_data_from_r1_returns in H as [t ->]. split.
  - intros k Hk. by rewrite lookup_insert_ne.
  - rewrite dom_insert_L. apply (comm_L (∪)).
Qed.

Lemma filter_reasoning_trace_frame (ex out : dict) :
  outcome (filter_reasoning_trace ex) = inr out →
  (∀ k, k ≠ "filtered" → k ≠ "filtered_reason" → out !! k = ex !! k)
  ∧ dom out = dom ex ∪ {["filtered"; "filtered_reason"]}.
Proof.
  intros H. apply filter_reasoning_trace_cases in H as [-> | [-> | ->]];
    (split; [intros k; apply with_verdict_other | apply with_verdict_dom]).
Qed.

(** C7. The record [distill_data_from_r1] returns has every field of its
    input unchanged, the problem and the answer among them, and the key
    [reasoning_trace] added: on an input without that key, the input is
    included in the output. The record [filter_reasoning_trace] returns has
    every field of its input unchanged, the trace among them, and the keys
    [filtered] and [filtered_reason] added: on an input without these keys,
    the input is included in the output. Row by row, the same holds of the
    datasets the two cells compute. *)
Theorem pipeline_preserves_fields :
  (∀ ex out, outcome (distill_data_from_r1 ex) = inr out →
     (∀ k, k ≠ "reasoning_trace" → out !! k = ex !! k)
     ∧ out !! "problem" = ex !! "problem"
     ∧ out !! "answer" = ex !! "answer"
     ∧ dom out = dom ex ∪ {["reasoning_trace"]}
     ∧ (ex !! "reasoning_trace" = None → ex ⊆ out))
  ∧ (∀ ex out, outcome (filter_reasoning_trace ex) = inr out →
       (∀ k, k ≠ "filtered" → k ≠ "filtered_reason" → out !! k = ex !! k)
       ∧ out !! "problem" = ex !! "problem"
       ∧ out !! "answer" = ex !! "answer"
       ∧ out !! "reasoning_trace" = ex !! "reasoning_trace"
       ∧ dom out = dom ex ∪ {["filtered"; "filtered_reason"]}
       ∧ (ex !! "filtered" = None → ex !! "filtered_reason" = None → ex ⊆ out))
  ∧ (∀ ds rows, outcome (distill_cell ds) = inr rows →
       Forall2 (λ ex out : dict, ∀ k, k ≠ "reasoning_trace" → out !! k = ex !! k)
         ds rows)
  ∧ (∀ ds rows kept, outcome (postprocess_cell ds) = inr (rows, kept) →
       Forall2 (λ ex out : dict,
                  ∀ k, k ≠ "filtered" → k ≠ "filtered_reason" → out !! k = ex !! k)
         ds rows).
Proof.
  split; [|split; [|split]].
  - intros ex out H. apply distill_data_from_r1_frame in H as [H1 H2].
    split; [done |]. split; [by apply H1 |]. split; [by apply H1 |].
    split; [done |]. by apply frame_included.
  - intros ex out H. apply filter_reasoning_trace_frame in H as [H1 H2].
    split; [done |]. split; [by apply H1 |]. split; [by apply H1 |].
    split; [by apply H1 |]. split; [done |]. intros Hf Hr.
    apply map_subseteq_spec. intros k v Hk. rewrite H1; [done | |];
      intros ->; congruence.
  - intros ds rows H. apply outcome_dataset_map in H.
    eapply Forall2_impl; [done |]. intros ex out Hout.
    by apply distill_data_from_r1_frame in Hout as [? _].
  - intros ds rows kept H. unfold postprocess_cell in H.
    apply outcome_bind_returns in H as (rows' & Hmap & H).
    apply outcome_bind_returns in H as (kept' & _ & H).
    apply outcome_bind_returns in H as (? & _ & H).
    injection H as <- <-. apply outcome_dataset_map in Hmap.
    eapply Forall2_impl; [done |]. intros ex out Hout.
    by apply filter_reasoning_trace_frame in Hout as [? _].
Qed.

End PipelineFacts.

(** * The post-processing cell *)

Section PostprocessFacts.
Context {expr : Type}.
Variable parse : string → list LatexExtractionConfig → string → list expr.
Variable verify : list expr → value → bool.

#[local] Abbreviation filter_reasoning_trace :=
  (filter_reasoning_trace parse verify) (only parsing).
#[local] Abbreviation postprocess_cell := (postprocess_cell parse verify) (only parsing).

Lemma saved_answer_checks (log : list (event expr)) :
  Forall (λ ev, is_answer_check ev = true) log → saved log = [].
Proof.
  induction 1 as [|ev log Hev _ IH]; [done |].
  unfold saved in *. destruct ev; simpl in Hev; try done; exact IH.
Qed.

Lemma saved_app (l1 l2 : list (event expr)) :
  saved (l1 ++ l2) = saved l1 ++ saved l2.
Proof. apply omap_app. Qed.

(** What the cell has done once it returns. *)
Lemma postprocess_cell_returns (ds rows kept : list dict) (log : list (event expr)) :
  postprocess_cell ds = (log, inr (rows, kept)) →
  ∃ l1, dataset_map filter_reasoning_trace ds = (l1, inr rows)
        ∧ kept = filter (λ x : dict, x !! "filtered" = Some (VBool false)) rows
        ∧ log = l1 ++ [SaveToDisk kept "filtered_dataset"].
Proof.
  intros H. unfold postprocess_cell in H.
  apply bind_returns in H as (l1 & rows' & l2 & Hmap & H & ->).
  assert (Hrows : Forall (λ x : dict, ∃ b, x !! "filtered" = Some (VBool b)) rows').
  { apply dataset_map_returns in Hmap.
    eapply Forall2_Forall_r; [exact Hmap |]. apply Forall_forall.
    intros ex _ row Hrow.
    apply filter_reasoning_trace_fields in Hrow as (b & _ & Hb & _).
    by exists b. }
  rewrite (dataset_filter_not_filtered rows' Hrows) in H.
  cbn in H. injection H as <- <- <-. by exists l1.
Qed.

(** C8. On a dataset whose rows have a trace and a ground truth, the cell
    returns. Every input row is still there after validation, in order,
    with the verdict the validator gave it: a boolean [filtered] and a
    reason code, filtered rows included. The dataset kept is made of the
    validated rows whose [filtered] is false, and it is the one dataset
    saved, under [filtered_dataset]. *)
Theorem postprocess_cell_retains (ds : list dict) :
  Forall (λ ex : dict, ∃ t gt, ex !! "reasoning_trace" = Some (VStr t)
                              ∧ ex !! "answer" = Some gt) ds →
  ∃ log rows kept,
    postprocess_cell ds = (log, inr (rows, kept))
    ∧ Forall2 (λ ex row, outcome (filter_reasoning_trace ex) = inr row) ds rows
    ∧ length rows = length ds
    ∧ Forall (λ row : dict,
                ∃ b r, row !! "filtered" = Some (VBool b)
                       ∧ row !! "filtered_reason" = Some (VStr r)
                       ∧ r ∈ reason_codes) rows
    ∧ kept = filter (λ x : dict, x !! "filtered" = Some (VBool false)) rows
    ∧ saved log = [(kept, "filtered_dataset")].
Proof.
  intros Hds.
  destruct (dataset_map_total (expr := expr) filter_reasoning_trace ds)
    as (l1 & rows & Hmap).
  { eapply Forall_impl; [done |]. intros ex (t & gt & Ht & Hgt).
    by eapply filter_reasoning_trace_total. }
  pose proof (dataset_map_returns _ _ _ _ Hmap) as Hrows.
  assert (Hv : Forall (λ row : dict,
                ∃ b r, row !! "filtered" = Some (VBool b)
                       ∧ row !! "filtered_reason" = Some (VStr r)
                       ∧ r ∈ reason_codes) rows).
  { eapply Forall2_Forall_r; [exact Hrows |]. apply Forall_forall.
    intros ex _ row Hrow.
    apply filter_reasoning_trace_fields in Hrow as (b & r & Hb & Hr & Hin & _).
    by exists b, r. }
  exists (l1 ++ [SaveToDisk
                   (filter (λ x : dict, x !! "filtered" = Some (VBool false)) rows)
                   "filtered_dataset"]), rows,
         (filter (λ x : dict, x !! "filtered" = Some (VBool false)) rows).
  split; [|split; [done | split; [|split; [done | split; [done |]]]]].
  - unfold postprocess_cell. rewrite (bind_inr _ _ l1 rows Hmap).
    rewrite dataset_filter_not_filtered.
    + by cbn.
    + eapply Forall_impl; [done |]. intros row (b & _ & Hb & _). by exists b.
  - symmetry. by eapply Forall2_length.
  - rewrite saved_app, saved_answer_checks; [done |].
    change l1 with (events (l1, inr (A := exn) rows)). rewrite <- Hmap.
    apply dataset_map_events, filter_reasoning_trace_events.
Qed.

End PostprocessFacts.

(** * The pipeline on sample rows *)

Module SampleFacts.
Import Sample.

Lemma filter_reasoning_trace_verdict_witness :
  outcome (filter_reasoning_trace parse verify valid_row)
  = inr (with_verdict false "VALID" valid_row)
  ∧ (with_verdict false "VALID" valid_row !! "filtered" = Some (VBool false)
     ↔ with_verdict false "VALID" valid_row !! "filtered_reason"
       = Some (VStr "VALID"))
  ∧ (∃ b, with_verdict false "VALID" valid_row !! "filtered" = Some (VBool b))
  ∧ (∃ r, with_verdict false "VALID" valid_row !! "filtered_reason" = Some (VStr r)
          ∧ r ∈ reason_codes).
Proof.
  split; [vm_compute; reflexivity |].
  apply (filter_reasoning_trace_verdict parse verify valid_row).
  vm_compute; reflexivity.
Defined.

Lemma filter_reasoning_trace_sequence_witness :
  filter_reasoning_trace parse verify untagged_row
  = ([], inr (with_verdict true "INVALID_FORMAT" untagged_row))
  ∧ outcome (filter_reasoning_trace parse verify wrong_row)
    = inr (with_verdict true "INCORRECT_ANSWER" wrong_row)
  ∧ outcome (filter_reasoning_trace parse verify valid_row)
    = inr (with_verdict false "VALID" valid_row).
Proof.
  split; [|split].
  - apply (filter_reasoning_trace_sequence parse verify untagged_row
             "\boxed{4}" (VStr "4")); reflexivity.
  - pose proof (filter_reasoning_trace_sequence parse verify wrong_row
                  "<think>adding</think>\boxed{5}" (VStr "4")
                  eq_refl eq_refl) as (_ & H & _).
    by rewrite H.
  - pose proof (filter_reasoning_trace_sequence parse verify valid_row
                  "<think>adding</think>\boxed{4}" (VStr "4")
                  eq_refl eq_refl) as (_ & _ & _ & H & _).
    by rewrite H.
Defined.

Lemma process_streaming_response_truncated_witness :
  process_streaming_response (expr := string)
    (stream_of [text_chunk (Some "<think>"); text_chunk None; text_chunk (Some "foo")]
       (Raises peer_closed))
  = ([Print "Error occurred: peer closed connection without sending complete message body (incomplete chunked read)"],
     inr "<think>foo").
Proof.
  apply (process_streaming_response_truncated parse verify
           [text_chunk (Some "<think>"); text_chunk None; text_chunk (Some "foo")]
           peer_closed).
  - repeat constructor; by eexists.
  - reflexivity.
Defined.

Lemma process_streaming_response_skips_none_witness :
  process_streaming_response (expr := string) (stream_of answer_chunks StopIteration)
  = ([], inr "<think>adding</think>\boxed{4}").
Proof.
  apply (process_streaming_response_skips_none (expr := string)).
  repeat constructor; by eexists.
Defined.

Lemma distill_data_from_r1_request_witness :
  ∃ content,
    format_scan PROMPT_TEMPLATE None {[ "problem" := VStr "2+2=?" ]} = inr content
    ∧ content
      = "Please reason step by step, and put your final answer within \boxed{}. 2+2=?"
    ∧ requests (events (distill_data_from_r1 (expr := string) client_create problem_row))
      = [ {| model := "nvdev/deepseek-ai/deepseek-r1";
             messages := [ {| role := "user"; msg_content := content |} ];
             temperature := 0.6;
             top_p := 0.7;
             max_tokens := 32768;
             timeout := 10000;
             stream := true |} ].
Proof.
  apply (distill_data_from_r1_request (expr := string) client_create
           problem_row (VStr "2+2=?")).
  reflexivity.
Defined.

Lemma pipeline_preserves_fields_witness :
  outcome (distill_data_from_r1 (expr := string) client_create problem_row)
  = inr valid_row
  ∧ valid_row !! "problem" = problem_row !! "problem"
  ∧ valid_row !! "answer" = problem_row !! "answer".
Proof.
  split; [vm_compute; reflexivity |].
  destruct (pipeline_preserves_fields parse verify client_create) as (H & _).
  destruct (H problem_row valid_row) as (_ & Hp & Ha & _);
    [vm_compute; reflexivity |].
  by split.
Defined.

Lemma postprocess_cell_retains_witness :
  ∃ log rows kept,
    postprocess_cell parse verify [valid_row; untagged_row; wrong_row]
    = (log, inr (rows, kept))
    ∧ Forall2 (λ ex row, outcome (filter_reasoning_trace parse verify ex) = inr row)
        [valid_row; untagged_row; wrong_row] rows
    ∧ length rows = 3
    ∧ Forall (λ row : dict,
                ∃ b r, row !! "filtered" = Some (VBool b)
                       ∧ row !! "filtered_reason" = Some (VStr r)
                       ∧ r ∈ reason_codes) rows
    ∧ kept = filter (λ x : dict, x !! "filtered" = Some (VBool false)) rows
    ∧ saved log = [(kept, "filtered_dataset")].
Proof.
  apply (postprocess_cell_retains parse verify [valid_row; untagged_row; wrong_row]).
  repeat constructor; by eexists _, _.
Defined.

(** The two end-to-end scenarios: a tagged trace with the right boxed
    answer is kept, a trace without tags is filtered for its format. *)
Example end_to_end_valid :
  outcome (bind (distill_data_from_r1 (expr := string) client_create problem_row)
             (filter_reasoning_trace parse verify))
  = inr (with_verdict false "VALID" valid_row).
Proof. vm_compute. reflexivity. Qed.

Example end_to_end_untagged :
  filter_reasoning_trace parse verify untagged_row
  = ([], inr (with_verdict true "INVALID_FORMAT" untagged_row)).
Proof. vm_compute. reflexivity. Qed.

Example postprocess_cell_sample :
  outcome (postprocess_cell parse verify [valid_row; untagged_row; wrong_row])
  = inr ([ with_verdict false "VALID" valid_row;
           with_verdict true "INVALID_FORMAT" untagged_row;
           with_verdict true "INCORRECT_ANSWER" wrong_row ],
         [ with_verdict false "VALID" valid_row ]).
Proof. vm_compute. reflexivity. Qed.

End SampleFacts.

(** * The shape of the traces that pass the format check *)

Module FormatShape.
Import Str StrFacts Re ReFacts FormatFacts.

Lemma absent_occurrences (tag t : string) :
  absent tag t ↔ occurrences tag t = 0.
Proof. unfold absent. by rewrite occurrences_0. Qed.

(** A token that lacks [c] starts at the end of [a] no more easily when
    text that begins with [c] is put after [a]. *)
Lemma startswith_before_char (c : ascii) (p a b : string) :
  lacks c p → startswith p (a +:+ String c b) = startswith p a.
Proof.
  revert a. induction p as [|y p IH]; intros a Hp; [done |].
  destruct Hp as [Hy Hp]. destruct a as [|x a]; simpl.
  - destruct (Ascii.eqb y c) eqn:E; [|done].
    apply Ascii.eqb_eq in E. congruence.
  - by rewrite IH.
Qed.

(** The occurrences of a token whose first character does not come back
    later in it, in a text cut right before that character. *)
Lemma occurrences_before_char (c : ascii) (tl a b : string) :
  lacks c tl →
  occurrences (String c tl) (a +:+ String c b)
  = occurrences (String c tl) a + occurrences (String c tl) (String c b).
Proof.
  intros Htl. remember (occurrences (String c tl) (String c b)) as n eqn:Hn.
  induction a as [|x a IH]; [by subst n |].
  cbn [String.append occurrences startswith].
  rewrite IH, (startswith_before_char c tl a b Htl).
  destruct (Ascii.eqb c x && startswith tl a); lia.
Qed.

Lemma occurrences_open_shape (u v : string) :
  occurrences "<think>" ("<think>" +:+ u +:+ "</think>" +:+ v)
  = S (occurrences "<think>" u + occurrences "<think>" v).
Proof.
  change (occurrences "<think>" ("<think>" +:+ u +:+ "</think>" +:+ v))
    with (S (occurrences "<think>" (u +:+ String "<" ("/think>" +:+ v)))).
  rewrite occurrences_before_char by (cbn; by repeat split).
  reflexivity.
Qed.

Lemma occurrences_close_shape (u v : string) :
  occurrences "</think>" ("<think>" +:+ u +:+ "</think>" +:+ v)
  = S (occurrences "</think>" u + occurrences "</think>" v).
Proof.
  change (occurrences "</think>" ("<think>" +:+ u +:+ "</think>" +:+ v))
    with (occurrences "</think>" (u +:+ String "<" ("/think>" +:+ v))).
  rewrite occurrences_before_char by (cbn; by repeat split).
  change (occurrences "</think>" (String "<" ("/think>" +:+ v)))
    with (S (occurrences "</think>" v)).
  lia.
Qed.

(** A trace without a closing tag is rejected. *)
Lemma check_format_absent_close (t : string) :
  absent "</think>" t → check_format t = false.
Proof.
  intros H. apply absent_occurrences in H.
  rewrite check_format_unfold, count_think_close, H. simpl.
  by rewrite andb_false_r.
Qed.

(** X1. The traces that pass the format check are those made of the
    opening tag, a text in which neither tag occurs, the closing tag, and
    again a text in which neither tag occurs; nothing else is asked of the
    two texts, which may be empty. *)
Theorem check_format_tag_free_shape (t : string) :
  check_format t = true
  ↔ ∃ u v, t = "<think>" +:+ u +:+ "</think>" +:+ v
           ∧ absent "<think>" u ∧ absent "</think>" u
           ∧ absent "<think>" v ∧ absent "</think>" v.
Proof.
  rewrite check_format_unfold, !andb_true_iff, re_match_matches, !Nat.eqb_eq.
  rewrite count_think_open, count_think_close.
  rewrite matches_think_shape by done. split.
  - intros [[(u & v & ->) Ho] Hc]. exists u, v.
    rewrite occurrences_open_shape in Ho. rewrite occurrences_close_shape in Hc.
    rewrite !absent_occurrences. repeat split; lia.
  - intros (u & v & -> & Hou & Hcu & Hov & Hcv).
    rewrite !absent_occurrences in *.
    rewrite occurrences_open_shape, occurrences_close_shape, Hou, Hcu, Hov, Hcv.
    repeat split. by exists u, v.
Qed.

(** X2. A trace that passes has at least the fifteen characters of the two
    tags, and the opening tag is nowhere but at its start. *)
Theorem check_format_length (t : string) :
  check_format t = true →
  15 ≤ String.length t ∧ ∀ i, occurs_at "<think>" i t → i = 0.
Proof.
  intros H. split.
  - pose proof H as Hm. apply check_format_iff in Hm as (Hm & _).
    apply matches_think_shape in Hm as (u & v & ->); [|done].
    rewrite !length_append. simpl. lia.
  - pose proof (check_format_startswith _ H) as H0. apply occurs_at_0 in H0.
    apply check_format_iff in H as (_ & (j & _ & Huniq) & _).
    intros i Hi. apply Huniq in H0, Hi. lia.
Qed.

End FormatShape.

(** * The accumulator at its edges, and the test cell *)

Section AccumulatorEdges.
Context {expr : Type}.

#[local] Abbreviation process_streaming_response :=
  (process_streaming_response (expr := expr)) (only parsing).

(** X3. A chunk whose list of choices is empty makes [choices[0]] raise
    [IndexError] inside the [try]: the accumulator prints that error and
    returns the fragments received before the chunk. What the stream holds
    after the chunk, text or failure, is never looked at. *)
Theorem process_streaming_response_empty_choices
    (cs : list chunk) (c : chunk) (rest : completion_stream) :
  Forall has_delta cs → choices c = [] →
  process_streaming_response (stream_of cs (Yield c rest))
  = ([Print "Error occurred: list index out of range"],
     inr (concat_text (fragments cs))).
Proof.
  intros Hcs Hc. unfold process_streaming_response.
  rewrite for_chunk_stream_of by done. simpl. by rewrite Hc.
Qed.

(** X4. An exception that is not of class [Exception] (an interrupt) goes
    through the accumulator: it is raised to the caller, nothing is
    printed, and the text accumulated so far is not returned. *)
Theorem process_streaming_response_interrupt (cs : list chunk) (e : exn) :
  Forall has_delta cs → is_Exception e = false →
  process_streaming_response (stream_of cs (Raises e)) = ([], inl e).
Proof.
  intros Hcs He. unfold process_streaming_response.
  rewrite for_chunk_stream_of by done. simpl. by rewrite He.
Qed.



End AccumulatorEdges.

(** * The requester at its edges, and the distilling cell *)

Section RequesterEdges.
Context {expr : Type}.
Variable client_create : request → exn + completion_stream.

#[local] Abbreviation distill_data_from_r1 :=
  (distill_data_from_r1 (expr := expr) client_create) (only parsing).
#[local] Abbreviation distill_cell :=
  (distill_cell (expr := expr) client_create) (only parsing).
#[local] Abbreviation process_streaming_response :=
  (process_streaming_response (expr := expr)) (only parsing).

Lemma requests_app (l1 l2 : list (event expr)) :
  requests (l1 ++ l2) = requests l1 ++ requests l2.
Proof. apply omap_app. Qed.

(** The requester, case by case. *)
Lemma distill_data_from_r1_run (ex : dict) :
  distill_data_from_r1 ex
  = match ex !! "problem" with
    | None => ([], inl (KeyError "problem"))
    | Some problem =>
        match client_create (r1_request problem) with
        | inl e => ([Create (r1_request problem)], inl e)
        | inr s =>
            (Create (r1_request problem) :: events (process_streaming_response s),
             match outcome (process_streaming_response s) with
             | inl e => inl e
             | inr t => inr (<["reasoning_trace" := VStr t]> ex)
             end)
        end
    end.
Proof.
  destruct (ex !! "problem") as [problem|] eqn:Hp.
  - rewrite (distill_data_from_r1_eq client_create ex problem Hp).
    unfold chat_completions_create.
    destruct (client_create (r1_request problem)) as [e|s].
    + by rewrite (bind_inl _ _ _ e eq_refl).
    + rewrite (bind_inr _ _ _ s eq_refl).
      destruct (process_streaming_response s) as [log [e|t]]; simpl; [done |].
      by rewrite app_nil_r.
  - unfold distill_data_from_r1, getitem. by rewrite Hp.
Qed.

(** X6. On a row without a [problem] field the requester raises
    [KeyError] before anything is sent to the endpoint. *)
Theorem distill_data_from_r1_missing_problem (ex : dict) :
  ex !! "problem" = None →
  distill_data_from_r1 ex = ([], inl (KeyError "problem"))
  ∧ requests (events (distill_data_from_r1 ex)) = [].
Proof.
  intros Hp. rewrite distill_data_from_r1_run, Hp. by split.
Qed.

(** X7. A failure of the request itself is not caught: the [try] of the
    accumulator covers the iteration of the stream only, so the exception
    raised by [create] leaves the requester, after the one request and
    with nothing printed. *)
Theorem distill_data_from_r1_create_fails (ex : dict) (problem : value) (e : exn) :
  ex !! "problem" = Some problem →
  client_create (r1_request problem) = inl e →
  distill_data_from_r1 ex = ([Create (r1_request problem)], inl e).
Proof.
  intros Hp He. by rewrite distill_data_from_r1_run, Hp, He.
Qed.

(** X8. A stream that breaks with an [Exception] after the chunks [cs]
    does not fail the row: the requester sends its one request, prints the
    error, and returns the row with the text received so far as its
    trace. *)
Theorem distill_data_from_r1_truncated (ex : dict) (problem : value)
    (cs : list chunk) (e : exn) :
  ex !! "problem" = Some problem →
  client_create (r1_request problem) = inr (stream_of cs (Raises e)) →
  Forall has_delta cs → is_Exception e = true →
  distill_data_from_r1 ex
  = ([Create (r1_request problem); Print ("Error occurred: " +:+ exn_str e)],
     inr (<["reasoning_trace" := VStr (concat_text (fragments cs))]> ex)).
Proof.
  intros Hp Hs Hcs He. rewrite distill_data_from_r1_run, Hp, Hs.
  by rewrite process_streaming_response_truncated_eq.
Qed.

(** X9. A trace the row already holds is of no consequence: the requester
    does on the row what it does on the row without it, and the new trace
    takes the place of the old. *)
Theorem distill_data_from_r1_overwrites (ex : dict) (old : value) :
  distill_data_from_r1 (<["reasoning_trace" := old]> ex)
  = distill_data_from_r1 (delete "reasoning_trace" ex).
Proof.
  rewrite !distill_data_from_r1_run.
  rewrite lookup_insert_ne, lookup_delete_ne by done.
  destruct (ex !! "problem") as [problem|]; [|done].
  destruct (client_create (r1_request problem)) as [e|s]; [done |].
  destruct (outcome (process_streaming_response s)) as [e|t]; [done |].
  by rewrite insert_insert_eq, insert_delete_eq.
Qed.

(** The requests of a map that returns: one per row, in row order. *)
Lemma distill_cell_requests_returns (ds rows : list dict) (log : list (event expr)) :
  dataset_map distill_data_from_r1 ds = (log, inr rows) →
  requests log = omap (λ ex : dict, r1_request <$> ex !! "problem") ds
  ∧ Forall (λ ex : dict, is_Some (ex !! "problem")) ds.
Proof.
  revert rows log. induction ds as [|ex ds IH]; intros rows log; simpl.
  - by intros [= <- <-].
  - intros H. apply bind_returns in H as (l1 & y & l2 & Hx & H & ->).
    apply bind_returns in H as (l3 & ys & l4 & Hds & H & ->).
    injection H as <- _. apply IH in Hds as [Hreq Hall].
    rewrite distill_data_from_r1_run in Hx.
    destruct (ex !! "problem") as [problem|] eqn:Hp; [|done].
    split; [|by constructor].
    rewrite app_nil_r, requests_app, Hreq. simpl. f_equal.
    destruct (client_create (r1_request problem)) as [e|s]; [done |].
    injection Hx as <- _.
    change (requests (Create (r1_request problem)
                      :: events (process_streaming_response s)))
      with (r1_request problem
            :: requests (events (process_streaming_response s))).
    by rewrite process_streaming_response_requests.
Qed.

(** X10. When the distilling cell returns, it has sent exactly one request
    per row, in the order of the rows, each for the problem of its row, and
    each row of the result is the input row with a trace, a string, set. *)
Theorem distill_cell_one_request_per_row (ds rows : list dict) :
  outcome (distill_cell ds) = inr rows →
  requests (events (distill_cell ds))
  = omap (λ ex : dict, r1_request <$> ex !! "problem") ds
  ∧ length (requests (events (distill_cell ds))) = length ds
  ∧ Forall2 (λ ex row : dict, ∃ t, row = <["reasoning_trace" := VStr t]> ex)
      ds rows.
Proof.
  unfold distill_cell. intros H.
  destruct (dataset_map distill_data_from_r1 ds) as [log r] eqn:E.
  simpl in H. subst r.
  pose proof (distill_cell_requests_returns _ _ _ E) as [Hreq Hall].
  cbn [events fst]. rewrite Hreq. split; [done |]. split.
  - clear E Hreq. induction Hall as [|ex ds' [p Hp] _ IH]; [done |].
    simpl. rewrite Hp. simpl. f_equal. exact IH.
  - apply dataset_map_returns in E. eapply Forall2_impl; [done |].
    intros ex row Hrow. by apply distill_data_from_r1_returns in Hrow.
Qed.

Lemma events_bind_ret {A B} (m : M expr A) (g : A → B) :
  events (bind m (λ a, ret (g a))) = events m.
Proof.
  destruct m as [log [e|a]]; simpl; [done |]. by rewrite app_nil_r.
Qed.

Lemma outcome_bind_raises {A B} (m : M expr A) (k : A → M expr B) (e : exn) :
  outcome m = inl e → bind m k = (events m, inl e).
Proof. destruct m as [log [e'|a]]; simpl; [by intros [= ->] | done]. Qed.

(** A row on which the mapped function raises at once ends the map: the
    events are those of the rows before it. *)
Lemma dataset_map_stops (f : dict → M expr dict) (pre post : list dict)
    (bad : dict) (e : exn) :
  f bad = ([], inl e) →
  events (dataset_map f (pre ++ bad :: post)) = events (dataset_map f pre)
  ∧ ∃ e', outcome (dataset_map f (pre ++ bad :: post)) = inl e'.
Proof.
  intros Hbad. induction pre as [|x pre [IHe [e' IHo]]]; simpl.
  - rewrite Hbad. simpl. eauto.
  - destruct (f x) as [l1 [e1|y]] eqn:Hx.
    + rewrite !(bind_inl _ _ l1 e1 eq_refl). simpl. eauto.
    + rewrite !(bind_inr _ _ l1 y eq_refl). simpl.
      rewrite (outcome_bind_raises _ _ e' IHo), IHe. simpl.
      pose proof (events_bind_ret (dataset_map f pre) (cons y)) as Hret.
      unfold events in Hret. rewrite Hret. eauto.
Qed.


End RequesterEdges.

(** * The validator at its edges, and the post-processing cell in full *)

Lemma with_verdict_idempotent (b : bool) (r : string) (ex : dict) :
  with_verdict b r (with_verdict b r ex) = with_verdict b r ex.
Proof.
  unfold with_verdict.
  rewrite (insert_insert_ne _ "filtered" "filtered_reason") by done.
  by rewrite insert_insert_eq, insert_insert_eq.
Qed.

Section ValidatorEdges.
Context {expr : Type}.
Variable parse : string → list LatexExtractionConfig → string → list expr.
Variable verify : list expr → value → bool.

#[local] Abbreviation filter_reasoning_trace :=
  (filter_reasoning_trace parse verify) (only parsing).
#[local] Abbreviation postprocess_cell := (postprocess_cell parse verify) (only parsing).
#[local] Abbreviation answer_checks := (answer_checks parse) (only parsing).
#[local] Abbreviation validated := (validated parse verify) (only parsing).
#[local] Abbreviation passes_checks := (passes_checks parse verify) (only parsing).

Lemma has_trace_and_answer_true (ex : dict) :
  has_trace_and_answer ex = true
  ↔ ∃ t gt, ex !! "reasoning_trace" = Some (VStr t) ∧ ex !! "answer" = Some gt.
Proof.
  unfold has_trace_and_answer. split.
  - destruct (ex !! "reasoning_trace") as [[| | |t]|]; try done.
    destruct (ex !! "answer") as [gt|]; [|done]. by exists t, gt.
  - by intros (t & gt & -> & ->).
Qed.

(** The validator on a row it accepts as input. *)
Lemma filter_reasoning_trace_validated (ex : dict) :
  has_trace_and_answer ex = true →
  filter_reasoning_trace ex = (answer_checks ex, inr (validated ex)).
Proof.
  intros H. apply has_trace_and_answer_true in H as (t & gt & Ht & Hgt).
  rewrite (filter_reasoning_trace_eq parse verify ex t gt Ht Hgt).
  unfold answer_checks, validated. rewrite Ht, Hgt.
  by destruct (check_format t).
Qed.

(** The validator on a row it does not accept. *)
Lemma filter_reasoning_trace_rejected (ex : dict) :
  has_trace_and_answer ex = false →
  ∃ e, filter_reasoning_trace ex = ([], inl e).
Proof.
  unfold has_trace_and_answer, filter_reasoning_trace, getitem.
  destruct (ex !! "reasoning_trace") as [v|]; [|by eexists].
  destruct (ex !! "answer") as [gt|]; [|by eexists].
  destruct v; try done; by eexists.
Qed.

Lemma validated_fields (ex : dict) :
  has_trace_and_answer ex = true →
  validated ex !! "reasoning_trace" = ex !! "reasoning_trace"
  ∧ validated ex !! "answer" = ex !! "answer"
  ∧ validated ex !! "filtered" = Some (VBool (negb (passes_checks ex)))
  ∧ validated ex = with_verdict (negb (passes_checks ex))
                     (if passes_checks ex then "VALID"
                      else match ex !! "reasoning_trace" with
                           | Some (VStr t) =>
                               if check_format t then "INCORRECT_ANSWER"
                               else "INVALID_FORMAT"
                           | _ => "INVALID_FORMAT"
                           end) ex.
Proof.
  intros H. apply has_trace_and_answer_true in H as (t & gt & Ht & Hgt).
  unfold validated, passes_checks. rewrite Ht, Hgt.
  destruct (check_format t); [destruct (verify _ gt) |]; simpl;
    rewrite !with_verdict_other, with_verdict_filtered by done; done.
Qed.

(** X12. The validator is idempotent: run on a record it has returned, it
    makes the same calls and returns that record again. *)
Theorem filter_reasoning_trace_idempotent (ex out : dict) :
  outcome (filter_reasoning_trace ex) = inr out →
  filter_reasoning_trace out = (events (filter_reasoning_trace ex), inr out).
Proof.
  intros H.
  destruct (filter_reasoning_trace_returns _ _ _ _ H) as (t & gt & Ht & Hgt).
  rewrite (filter_reasoning_trace_eq parse verify ex t gt Ht Hgt) in *.
  assert (Hout : ∀ b r, filter_reasoning_trace (with_verdict b r ex)
                 = if check_format t
                   then
                     let parsed := parse t answer_extraction_config "first_match" in
                     ([Parse t answer_extraction_config "first_match";
                       Verify parsed gt],
                      inr (if verify parsed gt
                           then with_verdict false "VALID" (with_verdict b r ex)
                           else with_verdict true "INCORRECT_ANSWER"
                                  (with_verdict b r ex)))
                   else ([], inr (with_verdict true "INVALID_FORMAT"
                                    (with_verdict b r ex)))).
  { intros b r. apply filter_reasoning_trace_eq;
      by rewrite with_verdict_other. }
  destruct (check_format t); simpl in *.
  - destruct (verify _ gt) eqn:Hv; injection H as <-;
      by rewrite Hout, with_verdict_idempotent.
  - injection H as <-. by rewrite Hout, with_verdict_idempotent.
Qed.

(** X13. What the validator raises. A row without [reasoning_trace] gives
    [KeyError] for that key, whatever else it holds; a row with a trace but
    without [answer] gives [KeyError] for [answer], even when the trace is
    malformed or is not a string; a trace that is not a string gives
    [TypeError]. In each case no check has run: there is no verdict and
    [math_verify] was not called. *)
Theorem filter_reasoning_trace_errors (ex : dict) :
  (ex !! "reasoning_trace" = None →
     filter_reasoning_trace ex = ([], inl (KeyError "reasoning_trace")))
  ∧ (∀ v, ex !! "reasoning_trace" = Some v → ex !! "answer" = None →
       filter_reasoning_trace ex = ([], inl (KeyError "answer")))
  ∧ (∀ v gt, ex !! "reasoning_trace" = Some v → ex !! "answer" = Some gt →
       (∀ t, v ≠ VStr t) →
       ∃ msg, filter_reasoning_trace ex = ([], inl (TypeError msg))).
Proof.
  unfold filter_reasoning_trace, getitem. split; [|split].
  - by intros ->.
  - by intros v -> ->.
  - intros v gt -> -> Hv. destruct v as [| | |t]; try by eexists.
    by destruct (Hv t).
Qed.

(** X14. The validator reads two fields only: rows with the same trace and
    the same ground truth get the same calls, the same exception if one is
    raised, and the same verdict. *)
Theorem filter_reasoning_trace_reads_two_fields (ex1 ex2 : dict) :
  ex1 !! "reasoning_trace" = ex2 !! "reasoning_trace" →
  ex1 !! "answer" = ex2 !! "answer" →
  events (filter_reasoning_trace ex1) = events (filter_reasoning_trace ex2)
  ∧ (∀ e, outcome (filter_reasoning_trace ex1) = inl e →
          outcome (filter_reasoning_trace ex2) = inl e)
  ∧ (∀ out1, outcome (filter_reasoning_trace ex1) = inr out1 →
       ∃ out2, outcome (filter_reasoning_trace ex2) = inr out2
               ∧ out1 !! "filtered" = out2 !! "filtered"
               ∧ out1 !! "filtered_reason" = out2 !! "filtered_reason").
Proof.
  intros Ht Hgt.
  destruct (ex1 !! "reasoning_trace") as [[| | |t]|] eqn:H1;
    destruct (ex1 !! "answer") as [gt|] eqn:H2;
    try (unfold filter_reasoning_trace, getitem;
         rewrite H1, H2, <- Ht, <- Hgt; by repeat split).
  symmetry in Ht, Hgt.
  rewrite (filter_reasoning_trace_eq parse verify ex1 t gt H1 H2).
  rewrite (filter_reasoning_trace_eq parse verify ex2 t gt Ht Hgt).
  cbv zeta.
  destruct (check_format t);
    [destruct (verify (parse t answer_extraction_config "first_match") gt) |];
    simpl;
    (split; [done |]); (split; [done |]);
    intros out1 [= <-]; eexists; (split; [done |]);
    by rewrite !with_verdict_filtered, !with_verdict_reason.
Qed.

End ValidatorEdges.

Section PostprocessEdges.
Context {expr : Type}.
Variable parse : string → list LatexExtractionConfig → string → list expr.
Variable verify : list expr → value → bool.
Variable client_create : request → exn + completion_stream.

#[local] Abbreviation filter_reasoning_trace :=
  (filter_reasoning_trace parse verify) (only parsing).
#[local] Abbreviation postprocess_cell := (postprocess_cell parse verify) (only parsing).
#[local] Abbreviation answer_checks := (answer_checks parse) (only parsing).
#[local] Abbreviation validated := (validated parse verify) (only parsing).
#[local] Abbreviation passes_checks := (passes_checks parse verify) (only parsing).
#[local] Abbreviation distill_data_from_r1 :=
  (distill_data_from_r1 (expr := expr) client_create) (only parsing).

(** The validating map on rows it accepts. *)
Lemma dataset_map_validated (ds : list dict) :
  Forall (λ ex, has_trace_and_answer ex = true) ds →
  dataset_map filter_reasoning_trace ds
  = (flat_map answer_checks ds, inr (validated <$> ds)).
Proof.
  induction 1 as [|ex ds Hex _ IH]; [done |].
  cbn [dataset_map]. rewrite (filter_reasoning_trace_validated parse verify ex Hex).
  rewrite (bind_inr _ _ _ _ eq_refl), IH. simpl. by rewrite app_nil_r.
Qed.

(** The rows kept among the validated ones. *)
Lemma filter_validated (ds : list dict) :
  Forall (λ ex, has_trace_and_answer ex = true) ds →
  filter (λ x : dict, x !! "filtered" = Some (VBool false)) (validated <$> ds)
  = with_verdict false "VALID" <$> filter (λ ex, passes_checks ex = true) ds.
Proof.
  induction 1 as [|ex ds Hex _ IH]; [done |].
  rewrite fmap_cons, !filter_cons, IH.
  destruct (validated_fields parse verify ex Hex) as (_ & _ & Hf & Hv).
  rewrite Hf. destruct (passes_checks ex) eqn:Hp; simpl.
  - f_equal. exact Hv.
  - done.
Qed.

(** The cell on rows the validator accepts. *)
Lemma postprocess_cell_run (ds : list dict) :
  Forall (λ ex, has_trace_and_answer ex = true) ds →
  let kept := with_verdict false "VALID"
                <$> filter (λ ex, passes_checks ex = true) ds in
  postprocess_cell ds
  = (flat_map answer_checks ds ++ [SaveToDisk kept "filtered_dataset"],
     inr (validated <$> ds, kept)).
Proof.
  intros Hds kept. unfold postprocess_cell.
  rewrite (bind_inr _ _ _ _ (dataset_map_validated ds Hds)).
  rewrite dataset_filter_not_filtered.
  - cbn. by rewrite (filter_validated ds Hds).
  - apply Forall_fmap. eapply Forall_impl; [done |]. intros ex Hex.
    destruct (validated_fields parse verify ex Hex) as (_ & _ & Hf & _).
    by eexists.
Qed.

(** X15. On rows that have a trace, a string, and a ground truth, the
    dataset the cell keeps and saves is made, in the order of the input,
    of the rows whose trace passes the format check and whose extracted
    answer is accepted, each with the verdict not filtered, VALID; the
    validated dataset holds every row with its verdict. *)
Theorem postprocess_cell_keeps_passing (ds : list dict) :
  Forall (λ ex, has_trace_and_answer ex = true) ds →
  outcome (postprocess_cell ds)
  = inr (validated <$> ds,
         with_verdict false "VALID" <$> filter (λ ex, passes_checks ex = true) ds)
  ∧ saved (events (postprocess_cell ds))
    = [(with_verdict false "VALID" <$> filter (λ ex, passes_checks ex = true) ds,
        "filtered_dataset")].
Proof.
  intros Hds. rewrite (postprocess_cell_run ds Hds). split; [done |].
  cbn [events fst]. rewrite saved_app, saved_answer_checks; [done |].
  clear Hds. induction ds as [|ex ds IH]; [constructor |].
  simpl. apply Forall_app. split; [|done].
  unfold answer_checks.
  destruct (ex !! "reasoning_trace") as [[| | |t]|]; try constructor.
  destruct (ex !! "answer"); [|constructor].
  destruct (check_format t); by repeat constructor.
Qed.

(** X16. On such rows the cell calls [parse] and [verify] once each for
    every row whose trace passes the format check, in the order of the
    rows, and never for a row whose trace fails it; the save is the last
    thing it does. *)
Theorem postprocess_cell_calls (ds : list dict) :
  Forall (λ ex, has_trace_and_answer ex = true) ds →
  ∃ kept,
    events (postprocess_cell ds)
    = flat_map answer_checks ds ++ [SaveToDisk kept "filtered_dataset"]
    ∧ length (flat_map answer_checks ds)
      = 2 * length (filter (λ ex, format_ok ex = true) ds).
Proof.
  intros Hds. rewrite (postprocess_cell_run ds Hds). eexists. split; [done |].
  induction Hds as [|ex ds Hex _ IH]; [done |].
  cbn [flat_map]. rewrite length_app, IH, filter_cons.
  apply has_trace_and_answer_true in Hex as (t & gt & Ht & Hgt).
  unfold answer_checks, format_ok. rewrite Ht, Hgt.
  destruct (check_format t); simpl; lia.
Qed.

(** X17. The cell raises exactly when some row has no trace, a trace that
    is not a string, or no ground truth; and when it raises, nothing has
    been saved. *)
Theorem postprocess_cell_fails_fast (ds : list dict) :
  ((∃ e, outcome (postprocess_cell ds) = inl e)
   ↔ Exists (λ ex, has_trace_and_answer ex = false) ds)
  ∧ (∀ e, outcome (postprocess_cell ds) = inl e →
          saved (events (postprocess_cell ds)) = []).
Proof.
  destruct (decide (Forall (λ ex, has_trace_and_answer ex = true) ds)) as [Hds|Hds].
  - rewrite (postprocess_cell_run ds Hds). split; [|done]. split.
    + by intros [e ?].
    + intros Hex. apply Exists_exists in Hex as (ex & Hin & Hbad).
      rewrite Forall_forall in Hds. specialize (Hds ex Hin). congruence.
  - apply not_Forall_Exists in Hds; [|apply _].
    assert (Hbad : Exists (λ ex, has_trace_and_answer ex = false) ds).
    { eapply Exists_impl; [done |]. intros ex. simpl.
      by destruct (has_trace_and_answer ex). }
    clear Hds. pose proof Hbad as Hsplit.
    apply Exists_exists in Hsplit as (bad & Hin & Hb).
    apply list_elem_of_split in Hin as (pre & post & ->).
    destruct (filter_reasoning_trace_rejected parse verify bad Hb) as [e0 He0].
    destruct (dataset_map_stops filter_reasoning_trace pre post bad e0 He0)
      as [_ [e' He']].
    unfold postprocess_cell.
    rewrite (outcome_bind_raises _ _ e' He'). split; [split; eauto |].
    intros _ _. cbn [events fst]. apply saved_answer_checks.
    apply dataset_map_events, filter_reasoning_trace_events.
Qed.

(** X18. A stream that ends, or breaks with an [Exception], before any
    closing tag has been received gives a row the validator filters for
    its format: end to end, the verdict is INVALID_FORMAT, and
    [math_verify] is never called on the unfinished trace. *)
Theorem distill_then_filter_unclosed (ex : dict) (problem gt : value)
    (s : completion_stream) :
  ex !! "problem" = Some problem →
  ex !! "answer" = Some gt →
  client_create (r1_request problem) = inr s →
  Forall has_delta (chunks_of s) →
  (∀ e, stream_end s = Some e → is_Exception e = true) →
  absent "</think>" (concat_text (fragments (chunks_of s))) →
  let trace := concat_text (fragments (chunks_of s)) in
  outcome (bind (distill_data_from_r1 ex) filter_reasoning_trace)
  = inr (with_verdict true "INVALID_FORMAT"
           (<["reasoning_trace" := VStr trace]> ex))
  ∧ Forall (λ ev, is_answer_check ev = false)
      (events (bind (distill_data_from_r1 ex) filter_reasoning_trace)).
Proof.
  intros Hp Hgt Hs Hcs Hend Habs trace.
  rewrite (distill_data_from_r1_run client_create ex), Hp, Hs.
  rewrite process_streaming_response_eq, (for_chunk_end_has_delta s "" Hcs).
  rewrite (consumed_has_delta s Hcs). fold trace. cbv zeta.
  assert (Hf : filter_reasoning_trace (<["reasoning_trace" := VStr trace]> ex)
               = ([], inr (with_verdict true "INVALID_FORMAT"
                             (<["reasoning_trace" := VStr trace]> ex)))).
  { rewrite (filter_reasoning_trace_eq parse verify _ trace gt).
    - by rewrite (FormatShape.check_format_absent_close trace Habs).
    - apply lookup_insert_eq.
    - by rewrite lookup_insert_ne. }
  destruct (stream_end s) as [e|] eqn:He.
  - rewrite (Hend e eq_refl). simpl. rewrite Hf. simpl.
    split; [done | by repeat constructor].
  - simpl. rewrite Hf. simpl. split; [done | by repeat constructor].
Qed.

End PostprocessEdges.

(** * The edges on sample rows *)

Module EdgeSamples.
Import Sample MoreSamples.

Lemma check_format_length_witness :
  check_format "<think></think>" = true
  ∧ 15 ≤ String.length "<think></think>"
  ∧ ∀ i, Str.occurs_at "<think>" i "<think></think>" → i = 0.
Proof.
  split; [reflexivity |].
  apply FormatShape.check_format_length. reflexivity.
Defined.

Lemma process_streaming_response_empty_choices_witness :
  process_streaming_response (expr := string)
    (stream_of [text_chunk (Some "<think>")]
       (Yield empty_chunk (Yield (text_chunk (Some "lost")) StopIteration)))
  = ([Print "Error occurred: list index out of range"], inr "<think>").
Proof.
  apply (process_streaming_response_empty_choices (expr := string)
           [text_chunk (Some "<think>")] empty_chunk).
  - repeat constructor; by eexists.
  - reflexivity.
Defined.

Lemma process_streaming_response_interrupt_witness :
  process_streaming_response (expr := string)
    (stream_of cut_chunks (Raises (NonException "KeyboardInterrupt")))
  = ([], inl (NonException "KeyboardInterrupt")).
Proof.
  apply (process_streaming_response_interrupt (expr := string) cut_chunks).
  - repeat constructor; by eexists.
  - reflexivity.
Defined.


Lemma distill_data_from_r1_missing_problem_witness :
  distill_data_from_r1 (expr := string) Sample.client_create no_problem_row
  = ([], inl (KeyError "problem"))
  ∧ requests (events (distill_data_from_r1 (expr := string)
                        Sample.client_create no_problem_row)) = [].
Proof.
  apply (distill_data_from_r1_missing_problem (expr := string)
           Sample.client_create no_problem_row).
  reflexivity.
Defined.

Lemma distill_data_from_r1_create_fails_witness :
  distill_data_from_r1 (expr := string) refusing_client problem_row
  = ([Create (r1_request (VStr "2+2=?"))],
     inl (OtherException "Connection error.")).
Proof.
  apply (distill_data_from_r1_create_fails (expr := string) refusing_client
           problem_row (VStr "2+2=?")); reflexivity.
Defined.

Lemma distill_data_from_r1_truncated_witness :
  distill_data_from_r1 (expr := string) cut_client problem_row
  = ([Create (r1_request (VStr "2+2=?"));
      Print ("Error occurred: " +:+ exn_str peer_closed)],
     inr (<["reasoning_trace" := VStr "<think>adding"]> problem_row)).
Proof.
  apply (distill_data_from_r1_truncated (expr := string) cut_client
           problem_row (VStr "2+2=?") cut_chunks peer_closed);
    [reflexivity | reflexivity | | reflexivity].
  repeat constructor; by eexists.
Defined.

Lemma distill_cell_one_request_per_row_witness :
  requests (events (distill_cell (expr := string) Sample.client_create
                      [problem_row; problem_row]))
  = [r1_request (VStr "2+2=?"); r1_request (VStr "2+2=?")].
Proof.
  destruct (distill_cell_one_request_per_row (expr := string)
              Sample.client_create [problem_row; problem_row]
              [valid_row; valid_row]) as (H & _).
  - vm_compute. reflexivity.
  - exact H.
Defined.


Lemma filter_reasoning_trace_idempotent_witness :
  filter_reasoning_trace Sample.parse Sample.verify
    (with_verdict false "VALID" valid_row)
  = (events (filter_reasoning_trace Sample.parse Sample.verify valid_row),
     inr (with_verdict false "VALID" valid_row)).
Proof.
  apply (filter_reasoning_trace_idempotent Sample.parse Sample.verify valid_row).
  vm_compute. reflexivity.
Defined.

Lemma filter_reasoning_trace_reads_two_fields_witness :
  events (filter_reasoning_trace Sample.parse Sample.verify valid_row)
  = events (filter_reasoning_trace Sample.parse Sample.verify
              (<["problem" := VStr "another problem"]> valid_row)).
Proof.
  apply (filter_reasoning_trace_reads_two_fields Sample.parse Sample.verify
           valid_row (<["problem" := VStr "another problem"]> valid_row));
    reflexivity.
Defined.

Lemma postprocess_cell_keeps_passing_witness :
  outcome (postprocess_cell Sample.parse Sample.verify
             [valid_row; untagged_row; wrong_row])
  = inr (validated Sample.parse Sample.verify
           <$> [valid_row; untagged_row; wrong_row],
         with_verdict false "VALID"
           <$> filter (λ ex, passes_checks Sample.parse Sample.verify ex = true)
                 [valid_row; untagged_row; wrong_row]).
Proof.
  apply (postprocess_cell_keeps_passing Sample.parse Sample.verify
           [valid_row; untagged_row; wrong_row]).
  repeat constructor.
Defined.

Lemma postprocess_cell_calls_witness :
  ∃ kept,
    events (postprocess_cell Sample.parse Sample.verify
              [valid_row; untagged_row; wrong_row])
    = flat_map (answer_checks Sample.parse) [valid_row; untagged_row; wrong_row]
      ++ [SaveToDisk kept "filtered_dataset"]
    ∧ length (flat_map (answer_checks Sample.parse)
                [valid_row; untagged_row; wrong_row])
      = 2 * length (filter (λ ex, format_ok ex = true)
                      [valid_row; untagged_row; wrong_row]).
Proof.
  apply (postprocess_cell_calls Sample.parse Sample.verify
           [valid_row; untagged_row; wrong_row]).
  repeat constructor.
Defined.

Lemma distill_then_filter_unclosed_witness :
  outcome (bind (distill_data_from_r1 (expr := string) cut_client problem_row)
             (filter_reasoning_trace Sample.parse Sample.verify))
  = inr (with_verdict true "INVALID_FORMAT"
           (<["reasoning_trace" := VStr "<think>adding"]> problem_row)).
Proof.
  destruct (distill_then_filter_unclosed Sample.parse Sample.verify cut_client
              problem_row (VStr "2+2=?") (VStr "4")
              (stream_of cut_chunks (Raises peer_closed))) as [H _];
    [reflexivity | reflexivity | reflexivity | | | | exact H].
  - repeat constructor; by eexists.
  - by intros e [= <-].
  - apply FormatShape.absent_occurrences. reflexivity.
Defined.

End EdgeSamples.

(** * The kept dataset is stable *)

Section KeptStable.
Context {expr : Type}.
Variable parse : string → list LatexExtractionConfig → string → list expr.
Variable verify : list expr → value → bool.

#[local] Abbreviation postprocess_cell := (postprocess_cell parse verify) (only parsing).
#[local] Abbreviation validated := (validated parse verify) (only parsing).
#[local] Abbreviation passes_checks := (passes_checks parse verify) (only parsing).

Lemma kept_row_stable (ex : dict) :
  passes_checks ex = true →
  has_trace_and_answer (with_verdict false "VALID" ex) = true
  ∧ passes_checks (with_verdict false "VALID" ex) = true
  ∧ validated (with_verdict false "VALID" ex) = with_verdict false "VALID" ex.
Proof.
  unfold passes_checks, has_trace_and_answer, validated.
  rewrite !with_verdict_other by done.
  destruct (ex !! "reasoning_trace") as [[| | |t]|]; try done.
  destruct (ex !! "answer") as [gt|]; [|done].
  intros H. rewrite H. apply andb_prop in H as [-> ->].
  by rewrite with_verdict_idempotent.
Qed.

Lemma kept_rows_stable (ds : list dict) :
  let kept := with_verdict false "VALID"
                <$> filter (λ ex, passes_checks ex = true) ds in
  Forall (λ ex, has_trace_and_answer ex = true) kept
  ∧ validated <$> kept = kept
  ∧ filter (λ ex, passes_checks ex = true) kept = kept.
Proof.
  cbv zeta. induction ds as [|ex ds (IH1 & IH2 & IH3)]; [done |].
  rewrite filter_cons. destruct (decide (passes_checks ex = true)) as [Hp|]; [|done].
  destruct (kept_row_stable ex Hp) as (H1 & H2 & H3).
  rewrite !fmap_cons, filter_cons, decide_True by done.
  rewrite H3, IH2, IH3. by repeat constructor.
Qed.

(** X19. The dataset the cell keeps is stable under the cell: validated
    again, every one of its rows is kept, unchanged, so that what is saved
    the second time is what was saved the first. *)
Theorem postprocess_cell_kept_stable (ds : list dict) (rows kept : list dict) :
  Forall (λ ex, has_trace_and_answer ex = true) ds →
  outcome (postprocess_cell ds) = inr (rows, kept) →
  outcome (postprocess_cell kept) = inr (kept, kept)
  ∧ saved (events (postprocess_cell kept)) = [(kept, "filtered_dataset")].
Proof.
  intros Hds H. rewrite (postprocess_cell_run parse verify ds Hds) in H.
  cbv zeta in H. injection H as _ <-.
  destruct (kept_rows_stable ds) as (H1 & H2 & H3).
  rewrite (postprocess_cell_run parse verify _ H1). cbv zeta.
  rewrite H2, H3.
  assert (Hid : with_verdict false "VALID"
                  <$> (with_verdict false "VALID"
                         <$> filter (λ ex, passes_checks ex = true) ds)
                = with_verdict false "VALID"
                    <$> filter (λ ex, passes_checks ex = true) ds).
  { rewrite <- list_fmap_compose. apply list_fmap_ext.
    intros i ex _. apply with_verdict_idempotent. }
  rewrite Hid. split; [done |].
  cbn [events fst]. rewrite saved_app, saved_answer_checks; [done |].
  apply Forall_flat_map, Forall_forall. intros ex _.
  unfold answer_checks.
  destruct (ex !! "reasoning_trace") as [[| | |t]|]; try constructor.
  destruct (ex !! "answer"); [|constructor].
  destruct (check_format t); by repeat constructor.
Qed.

End KeptStable.

Module KeptSamples.
Import Sample.

Lemma postprocess_cell_kept_stable_witness :
  outcome (postprocess_cell parse verify [with_verdict false "VALID" valid_row])
  = inr ([with_verdict false "VALID" valid_row],
         [with_verdict false "VALID" valid_row]).
Proof.
  destruct (postprocess_cell_kept_stable parse verify
              [valid_row; untagged_row; wrong_row]
              [ with_verdict false "VALID" valid_row;
                with_verdict true "INVALID_FORMAT" untagged_row;
                with_verdict true "INCORRECT_ANSWER" wrong_row ]
              [ with_verdict false "VALID" valid_row ]) as [H _].
  - repeat constructor.
  - vm_compute. reflexivity.
  - exact H.
Defined.

End KeptSamples.
